(** * Storage contracts of the consensus state (sia/contracts.go)

    A shallow embedding of [contracts.go]: proof index derivation, proof and
    contract validation, the two ledger mutations ([addContract],
    [applyStorageProof]), the per-block maintenance pass and its inverse.

    Go integers are [Z] values with the wrap-around of their type written out,
    Go maps are [gmap]s, byte arrays are [list byte].  The open-contract map
    holds pointers ([map[ContractID]*OpenContract]); the pointed-to records
    live in an explicit object store, so that the entries of the block's
    termination list alias the records of the map exactly as in the source.
    A run-time panic is an explicit result. *)

From Stdlib Require Import ZArith.
From Stdlib.Strings Require Import Byte.
From stdpp Require Import gmap list strings.

Local Open Scope Z_scope.

(** ** Go integer types *)

(** A fixed-width Go integer type: [uint32], [int64], ... *)
Record IntType := mkIntType { signed : bool; bits : positive }.

Definition modulus (t : IntType) : Z := 2 ^ Z.pos (bits t).

Definition minInt (t : IntType) : Z :=
  if signed t then - (modulus t / 2) else 0.

Definition maxInt (t : IntType) : Z :=
  if signed t then modulus t / 2 - 1 else modulus t - 1.

(** The value an arithmetic result has once it is stored in type [t]. *)
Definition wrap (t : IntType) (z : Z) : Z :=
  (z - minInt t) mod modulus t + minInt t.

Definition inRange (t : IntType) (z : Z) : Prop := minInt t ≤ z ≤ maxInt t.

Definition int64 : IntType := mkIntType true 64.
Definition uint64 : IntType := mkIntType false 64.
Definition uint32 : IntType := mkIntType false 32.

(** ** Panics *)

Inductive panic : Type :=
  | NilDereference
  | DivideByZero
  | PanicError (err : string).

Inductive result (A : Type) : Type :=
  | Ok (a : A)
  | Panic (p : panic).
Arguments Ok {A} a.
Arguments Panic {A} p.

#[global] Instance result_ret : MRet result := λ A a, Ok a.
#[global] Instance result_bind : MBind result := λ A B f m,
  match m with
  | Ok a => f a
  | Panic p => Panic p
  end.

(** [x % y] on a Go integer type: truncated remainder, panics on [y = 0]. *)
Definition goRem (x y : Z) : result Z :=
  if decide (y = 0) then Panic DivideByZero else Ok (Z.rem x y).

(** ** math/big *)

(** [new(big.Int).SetBytes(b)]: [b] read as a big-endian unsigned integer. *)
Definition SetBytes (b : list byte) : Z :=
  fold_left (λ acc x, acc * 256 + Z.of_N (Byte.to_N x)) b 0.

(** [x.Mod(x, y)]: Euclidean modulus, a division-by-zero panic for [y = 0]. *)
Definition bigMod (x y : Z) : result Z :=
  if decide (y = 0) then Panic DivideByZero else Ok (x mod Z.abs y).

(** ** Data model *)

#[global] Instance byte_eq_dec : EqDecision byte := Byte.byte_eq_dec.
#[global] Instance byte_countable : Countable byte :=
  inj_countable Byte.to_N Byte.of_N Byte.of_to_N.

(** [hash.Hash], a byte array; contract, block and output IDs and coin
    addresses are hashes. *)
Abbreviation Hash := (list byte) (only parsing).
Abbreviation ContractID := (list byte) (only parsing).
Abbreviation OutputID := (list byte) (only parsing).
Abbreviation BlockID := (list byte) (only parsing).
Abbreviation CoinAddress := (list byte) (only parsing).

(** The zero value of a hash, what a Go map returns for an absent key. *)
Definition zeroHash : Hash := replicate 32 "000"%byte.

(** The struct declarations are not part of contracts.go.  Each record below
    has the fields that the code of contracts.go reads or writes, with the
    meaning section 3 of the specification gives them; [oc_], [sp_] and
    [msp_] prefix the fields whose Go name is also the name of a type. *)

(** Modelled from the spec: the struct [FileContract], immutable once
    formed; [End_] is its field [End]. *)
Record FileContract := mkFileContract {
  ContractFund : Z;
  FileMerkleRoot : Hash;
  FileSize : Z;
  Start : Z;
  End_ : Z;
  ChallengeFrequency : Z;
  Tolerance : Z;
  ValidProofPayout : Z;
  ValidProofAddress : CoinAddress;
  MissedProofPayout : Z;
  MissedProofAddress : CoinAddress;
}.

(** Modelled from the spec: the struct [OpenContract], the mutable record
    of an active contract. *)
Record OpenContract := mkOpenContract {
  oc_FileContract : FileContract;
  oc_ContractID : ContractID;
  FundsRemaining : Z;
  Failures : Z;
  WindowSatisfied : bool;
}.

(** Modelled from the spec: the struct [StorageProof], a transaction
    payload. *)
Record StorageProof := mkStorageProof {
  sp_ContractID : ContractID;
  Segment : list byte;
  HashSet : list Hash;
}.

(** Modelled from the spec: the struct [Output], a spendable value. *)
Record Output := mkOutput {
  Value : Z;
  SpendHash : CoinAddress;
}.

(** Modelled from the spec: the struct [MissedStorageProof], the audit
    record of a missed proof. *)
Record MissedStorageProof := mkMissedStorageProof {
  msp_OutputID : OutputID;
  msp_ContractID : ContractID;
}.

(** A pointer to an [OpenContract] object. *)
Abbreviation ptr := positive (only parsing).

(** Modelled from the spec: the metadata node of the current block, what
    [s.currentBlockNode()] points to, with the two audit lists maintenance
    appends to.  The termination list holds the pointers that were in the
    open-contract map. *)
Record BlockNode := mkBlockNode {
  MissedStorageProofs : list MissedStorageProof;
  ContractTerminations : list ptr;
}.

(** Modelled from the spec: the struct [State], the consensus state.
    [Height] is what [s.Height()] returns and [currentBlockNode] the node
    [s.currentBlockNode()] points to.  [OpenContracts], [UnspentOutputs] and
    [CurrentPath] are the Go maps of these names (reading an absent key
    gives the zero value).  [objects] is the store of the [OpenContract]
    records that the pointers of [OpenContracts] and of the termination
    list refer to. *)
Record State := mkState {
  Height : Z;
  objects : gmap ptr OpenContract;
  OpenContracts : gmap ContractID ptr;
  UnspentOutputs : gmap OutputID Output;
  CurrentPath : gmap Z BlockID;
  currentBlockNode : BlockNode;
}.

(** Reading through a pointer.  A nil pointer panics; a pointer without an
    object cannot arise in Go and is treated alike. *)
Definition deref (s : State) (p : option ptr) : result OpenContract :=
  match p with
  | None => Panic NilDereference
  | Some p =>
      match objects s !! p with
      | Some oc => Ok oc
      | None => Panic NilDereference
      end
  end.

(** The record a contract ID stands for, if any. *)
Definition openContractOf (s : State) (id : ContractID) : option OpenContract :=
  p ← OpenContracts s !! id; objects s !! p.

Definition setObject (p : ptr) (oc : OpenContract) (s : State) : State :=
  mkState (Height s) (<[p := oc]> (objects s)) (OpenContracts s)
          (UnspentOutputs s) (CurrentPath s) (currentBlockNode s).

Definition setOpenContracts (m : gmap ContractID ptr) (s : State) : State :=
  mkState (Height s) (objects s) m
          (UnspentOutputs s) (CurrentPath s) (currentBlockNode s).

Definition setUnspentOutputs (m : gmap OutputID Output) (s : State) : State :=
  mkState (Height s) (objects s) (OpenContracts s)
          m (CurrentPath s) (currentBlockNode s).

Definition setBlockNode (n : BlockNode) (s : State) : State :=
  mkState (Height s) (objects s) (OpenContracts s)
          (UnspentOutputs s) (CurrentPath s) n.

(** Writing a field through a pointer. *)
Definition store (s : State) (p : option ptr) (f : OpenContract → OpenContract)
    : result State :=
  oc ← deref s p;
  match p with
  | Some p => Ok (setObject p (f oc) s)
  | None => Panic NilDereference
  end.

Definition setFundsRemaining (v : Z) (oc : OpenContract) : OpenContract :=
  mkOpenContract (oc_FileContract oc) (oc_ContractID oc) v (Failures oc)
                 (WindowSatisfied oc).

Definition setFailures (v : Z) (oc : OpenContract) : OpenContract :=
  mkOpenContract (oc_FileContract oc) (oc_ContractID oc) (FundsRemaining oc) v
                 (WindowSatisfied oc).

Definition setWindowSatisfied (v : bool) (oc : OpenContract) : OpenContract :=
  mkOpenContract (oc_FileContract oc) (oc_ContractID oc) (FundsRemaining oc)
                 (Failures oc) v.

(** ** What contracts.go takes from the rest of the repository *)

(** Modelled from the spec: the integer types of block heights, of currency
    amounts and of the failure counter ([Tolerance], [Failures]), the
    functions of the hash package and the methods of [FileContract] that
    contracts.go calls are declared outside contracts.go (section 6 lists
    them as external interfaces).  They are the fields of a class, so every
    result below holds for each choice of them.  A Go result [(v, err)] is a
    pair whose second component is [None] for [err == nil]. *)
Class Externals := {
  BlockHeight : IntType;
  Currency : IntType;
  Counter : IntType;
  HashBytes : list byte → Hash;
  CalculateSegments : Z → Z * option string;
  VerifyReaderProof : list byte → list Hash → Z → Z → Hash → bool;
  WindowIndex : FileContract → Z → Z * option string;
  StorageProofOutputID :
    FileContract → ContractID → Z → bool → OutputID * option string;
  ContractTerminationOutputID : FileContract → ContractID → bool → OutputID;
}.

(** ** The operations of contracts.go *)

Section Contracts.
Context `{Externals}.

(** The seed of the proof index (lines 19-23): the hash of the ID of the
    trigger block followed by the contract ID, as an integer. *)
Definition seedInt (s : State) (sp : StorageProof) (contract : FileContract)
    (windowIndex : Z) : Z :=
  let triggerBlock :=
    wrap BlockHeight (wrap BlockHeight (windowIndex * Start contract) - 1) in
  let triggerBlockID := default zeroHash (CurrentPath s !! triggerBlock) in
  let indexSeed := HashBytes (triggerBlockID ++ sp_ContractID sp) in
  SetBytes indexSeed.

(** [currentProofIndex] returns the index that should be used when building
    and verifying the storage proof for a file at the given window. *)
Definition currentProofIndex (s : State) (sp : StorageProof) : result Z :=
  openContract ← deref s (OpenContracts s !! sp_ContractID sp);
  let contract := oc_FileContract openContract in
  let '(windowIndex, err) := WindowIndex contract (Height s) in
  match err with
  | Some _ => Ok 0
  | None =>
      modSeed ← bigMod (seedInt s sp contract windowIndex)
                       (wrap int64 (FileSize contract));
      Ok (wrap uint64 (wrap int64 modSeed))
  end.

(** [validProof] returns [None] ([err = nil]) if the storage proof is valid
    in the context of the state, and the error otherwise. *)
Definition validProof (s : State) (sp : StorageProof) : result (option string) :=
  match OpenContracts s !! sp_ContractID sp with
  | None => Ok (Some "unrecognized contract id in storage proof"%string)
  | Some p =>
      openContract ← deref s (Some p);
      if WindowSatisfied openContract then
        Ok (Some "storage proof has already been completed for this contract"%string)
      else
        let '(numSegments, err) :=
          CalculateSegments (wrap int64 (FileSize (oc_FileContract openContract))) in
        match err with
        | Some e => Ok (Some e)
        | None =>
            proofIndex ← currentProofIndex s sp;
            if negb (VerifyReaderProof (Segment sp) (HashSet sp) numSegments
                       proofIndex (FileMerkleRoot (oc_FileContract openContract)))
            then Ok (Some "provided storage proof is invalid"%string)
            else Ok None
        end
  end.

(** The payout of a proof event: it cannot be greater than the amount of
    funds remaining. *)
Definition payoutOf (fundsRemaining proofPayout : Z) : Z :=
  if fundsRemaining <? proofPayout then fundsRemaining else proofPayout.

(** [applyStorageProof] takes a storage proof and adds the output created
    by it to the consensus state. *)
Definition applyStorageProof (s : State) (sp : StorageProof) : result State :=
  openContract ← deref s (OpenContracts s !! sp_ContractID sp);
  let contract := oc_FileContract openContract in
  let payout := payoutOf (FundsRemaining openContract) (ValidProofPayout contract) in
  let output := mkOutput payout (ValidProofAddress contract) in
  let '(outputID, err) :=
    StorageProofOutputID contract (oc_ContractID openContract) (Height s) true in
  match err with
  | Some e => Panic (PanicError e)
  | None =>
      let s1 := setUnspentOutputs (<[outputID := output]> (UnspentOutputs s)) s in
      s2 ← store s1 (OpenContracts s1 !! sp_ContractID sp) (setWindowSatisfied true);
      store s2 (OpenContracts s2 !! sp_ContractID sp)
            (λ oc, setFundsRemaining (wrap Currency (FundsRemaining oc - payout)) oc)
  end.

(** [validContract] returns [None] ([err = nil]) if the contract is valid
    in the current context of the state, and the error otherwise. *)
Definition validContract (s : State) (c : FileContract) : option string :=
  if ContractFund c <? 0 then Some "contract must be funded."%string
  else if Start c <? Height s then Some "contract must start in the future."%string
  else if End_ c <=? Start c then
    Some "contract duration must be at least one block."%string
  else None.

(** [addContract] takes a [FileContract] and its [ContractID] and adds it
    to the state; [&openContract] is a newly allocated object. *)
Definition addContract (s : State) (contract : FileContract) (id : ContractID)
    : State :=
  let openContract := mkOpenContract contract id (ContractFund contract) 0 true in
  let p := fresh (dom (objects s)) in
  setOpenContracts (<[id := p]> (OpenContracts s)) (setObject p openContract s).

(** *** Maintenance *)

(** The missed-proof branch of the loop body (lines 130-156). *)
Definition missedProof (s : State) (p : ptr) : result State :=
  openContract ← deref s (Some p);
  let contract := oc_FileContract openContract in
  let payout := payoutOf (FundsRemaining openContract) (MissedProofPayout contract) in
  let '(newOutputID, err) :=
    StorageProofOutputID contract (oc_ContractID openContract) (Height s) false in
  match err with
  | Some e => Panic (PanicError e)
  | None =>
      let output := mkOutput payout (MissedProofAddress contract) in
      let s1 := setUnspentOutputs (<[newOutputID := output]> (UnspentOutputs s)) s in
      let msp := mkMissedStorageProof newOutputID (oc_ContractID openContract) in
      let node := currentBlockNode s1 in
      let s2 := setBlockNode (mkBlockNode (MissedStorageProofs node ++ [msp])
                                          (ContractTerminations node)) s1 in
      s3 ← store s2 (Some p)
             (λ oc, setFundsRemaining (wrap Currency (FundsRemaining oc - payout)) oc);
      store s3 (Some p) (λ oc, setFailures (wrap Counter (Failures oc + 1)) oc)
  end.

(** The check for the window switching over (lines 127-159). *)
Definition windowCheck (s : State) (p : ptr) : result State :=
  openContract ← deref s (Some p);
  let contract := oc_FileContract openContract in
  r ← goRem (wrap BlockHeight (Height s - Start contract)) (ChallengeFrequency contract);
  if (r =? 0) && (Height s >? Start contract) then
    s1 ← (if negb (WindowSatisfied openContract) then missedProof s p else Ok s);
    store s1 (Some p) (setWindowSatisfied false)
  else Ok s.

(** The test of line 162. *)
Definition terminates (s : State) (openContract : OpenContract) : bool :=
  (FundsRemaining openContract =? 0)
  || (End_ (oc_FileContract openContract) =? Height s)
  || (Tolerance (oc_FileContract openContract) =? Failures openContract).

(** The check for a terminated contract (lines 162-185); the second
    component is [contractsToDelete]. *)
Definition terminationCheck (s : State) (p : ptr) (contractsToDelete : list ContractID)
    : result (State * list ContractID) :=
  openContract ← deref s (Some p);
  let contract := oc_FileContract openContract in
  if terminates s openContract then
    let s1 :=
      if negb (FundsRemaining openContract =? 0) then
        let contractStatus := Failures openContract =? Tolerance contract in
        let outputID :=
          ContractTerminationOutputID contract (oc_ContractID openContract)
                                      contractStatus in
        let output :=
          mkOutput (FundsRemaining openContract)
                   (if Tolerance contract =? Failures openContract
                    then MissedProofAddress contract
                    else ValidProofAddress contract) in
        setUnspentOutputs (<[outputID := output]> (UnspentOutputs s)) s
      else s in
    let node := currentBlockNode s1 in
    let s2 := setBlockNode (mkBlockNode (MissedStorageProofs node)
                                        (ContractTerminations node ++ [p])) s1 in
    Ok (s2, contractsToDelete ++ [oc_ContractID openContract])
  else Ok (s, contractsToDelete).

(** One iteration of the scan of the open contracts. *)
Definition maintainContract (s : State) (p : ptr) (contractsToDelete : list ContractID)
    : result (State * list ContractID) :=
  s1 ← windowCheck s p;
  terminationCheck s1 p contractsToDelete.

(** The scan, over the pointers in the order the [range] yields them. *)
Fixpoint scanContracts (visit : list ptr) (s : State)
    (contractsToDelete : list ContractID) : result (State * list ContractID) :=
  match visit with
  | [] => Ok (s, contractsToDelete)
  | p :: visit' =>
      r ← maintainContract s p contractsToDelete;
      scanContracts visit' r.1 r.2
  end.

(** Delete all of the contracts that terminated. *)
Definition deleteContracts (contractsToDelete : list ContractID) (s : State) : State :=
  setOpenContracts
    (foldl (λ m contractID, delete contractID m) (OpenContracts s) contractsToDelete) s.

(** Go leaves the order in which [range] visits a map unspecified: a pass
    of maintenance is determined by the state and by that order. *)
Definition rangeOrder (s : State) (visit : list ptr) : Prop :=
  visit ≡ₚ (map_to_list (OpenContracts s)).*2.

(** [contractMaintenance] for a given order of visit. *)
Definition contractMaintenanceIn (visit : list ptr) (s : State) : result State :=
  r ← scanContracts visit s [];
  Ok (deleteContracts r.2 r.1).

(** [contractMaintenance] checks the contract windows and storage proofs,
    creates outputs for missed proofs and contract terminations and
    advances the storage proof windows. *)
Definition contractMaintenance (s : State) : result State :=
  contractMaintenanceIn (map_to_list (OpenContracts s)).*2 s.

(** *** Inversion *)

(** Reopen one terminated contract and remove the corresponding output
    (lines 199-201). *)
Definition reopenContract (s : State) (p : ptr) : result State :=
  openContract ← deref s (Some p);
  let s1 := setOpenContracts
              (<[oc_ContractID openContract := p]> (OpenContracts s)) s in
  let contractStatus :=
    Failures openContract =? Tolerance (oc_FileContract openContract) in
  Ok (setUnspentOutputs
        (delete (ContractTerminationOutputID (oc_FileContract openContract)
                   (oc_ContractID openContract) contractStatus)
                (UnspentOutputs s1)) s1).

(** The [Value] of [s.UnspentOutputs[id]], zero for an absent key. *)
Definition outputValue (s : State) (id : OutputID) : Z :=
  from_option Value 0 (UnspentOutputs s !! id).

(** Reverse one missed storage proof (lines 206-208). *)
Definition reverseMissedProof (s : State) (missedProof : MissedStorageProof)
    : result State :=
  let v := outputValue s (msp_OutputID missedProof) in
  s1 ← store s (OpenContracts s !! msp_ContractID missedProof)
         (λ oc, setFundsRemaining (wrap Currency (FundsRemaining oc + v)) oc);
  s2 ← store s1 (OpenContracts s1 !! msp_ContractID missedProof)
         (λ oc, setFailures (wrap Counter (Failures oc - 1)) oc);
  Ok (setUnspentOutputs (delete (msp_OutputID missedProof) (UnspentOutputs s2)) s2).

(** A [for ... range] over a slice, the body threading the state. *)
Fixpoint forEach {A : Type} (body : State → A → result State) (l : list A)
    (s : State) : result State :=
  match l with
  | [] => Ok s
  | x :: l' => s1 ← body s x; forEach body l' s1
  end.

(** [inverseContractMaintenance] does the inverse of contract maintenance,
    moving the state of contracts backwards instead of forwards. *)
Definition inverseContractMaintenance (s : State) : result State :=
  s1 ← forEach reopenContract (ContractTerminations (currentBlockNode s)) s;
  forEach reverseMissedProof (MissedStorageProofs (currentBlockNode s1)) s1.

(** The two records are of the same contract: maintenance never writes
    the [FileContract] nor the [ContractID] of a record. *)
Definition sameContract (oc oc' : OpenContract) : Prop :=
  oc_FileContract oc' = oc_FileContract oc ∧ oc_ContractID oc' = oc_ContractID oc.

(** The output IDs under which a pass at height [h] may write for the
    contract of [oc]: that of its missed proof and those of its termination. *)
Definition writesOutput (h : Z) (oc : OpenContract) (oid : OutputID) : Prop :=
  (StorageProofOutputID (oc_FileContract oc) (oc_ContractID oc) h false).1 = oid
  ∨ ∃ b, ContractTerminationOutputID (oc_FileContract oc) (oc_ContractID oc) b = oid.

(** The audit records of the current block resolve: the recorded pointers
    and those of the open-contract map have their objects, and the
    contract of each missed-proof record is open or among the terminated
    ones.  Maintenance only writes such records. *)
Definition auditResolves (s : State) : Prop :=
  (∀ p, p ∈ ContractTerminations (currentBlockNode s) → is_Some (objects s !! p))
  ∧ (∀ id q, OpenContracts s !! id = Some q → is_Some (objects s !! q))
  ∧ (∀ mp, mp ∈ MissedStorageProofs (currentBlockNode s) →
       is_Some (OpenContracts s !! msp_ContractID mp)
       ∨ ∃ p oc, p ∈ ContractTerminations (currentBlockNode s)
                 ∧ objects s !! p = Some oc
                 ∧ oc_ContractID oc = msp_ContractID mp).

End Contracts.

(** ** A concrete instance, to run the model on *)

Module Sample.

(** The challenge window open at height [h]: none before [Start] and none
    from [End] on. *)
Definition windowIndex (fc : FileContract) (h : Z) : Z * option string :=
  if h <? Start fc then (0, Some "height below contract start point"%string)
  else if End_ fc <=? h then (0, Some "height above contract end point"%string)
  else ((h - Start fc) `quot` ChallengeFrequency fc, None).

Definition flag (b : bool) : byte := if b then "001"%byte else "000"%byte.

Definition heightByte (h : Z) : byte := default "000"%byte (Byte.of_N (Z.to_N h)).

(** Stand-ins for the hash and for the derivation of output IDs: the
    input itself, tagged. *)
Definition hashBytes (b : list byte) : Hash := b.

Definition storageProofOutputID (fc : FileContract) (id : ContractID) (h : Z)
    (valid : bool) : OutputID * option string :=
  let '(w, err) := windowIndex fc h in
  (hashBytes (id ++ [heightByte w; flag valid]), err).

Definition contractTerminationOutputID (fc : FileContract) (id : ContractID)
    (failed : bool) : OutputID :=
  hashBytes (id ++ [flag failed]).

Definition calculateSegments (fileSize : Z) : Z * option string :=
  if fileSize <? 0 then (0, Some "file size is negative"%string)
  else ((fileSize + 63) `quot` 64, None).

#[export] Instance externals : Externals := {|
  BlockHeight := uint32;
  Currency := uint64;
  Counter := uint32;
  HashBytes := hashBytes;
  CalculateSegments := calculateSegments;
  VerifyReaderProof := λ _ _ _ _ _, true;
  WindowIndex := windowIndex;
  StorageProofOutputID := storageProofOutputID;
  ContractTerminationOutputID := contractTerminationOutputID;
|}.

Definition id1 : ContractID := replicate 32 "017"%byte.
Definition validAddress : CoinAddress := replicate 32 "010"%byte.
Definition missedAddress : CoinAddress := replicate 32 "011"%byte.

(** The contract of the scenario of section 8. *)
Definition contract : FileContract := {|
  ContractFund := 100;
  FileMerkleRoot := replicate 32 "042"%byte;
  FileSize := 4096;
  Start := 10;
  End_ := 20;
  ChallengeFrequency := 5;
  Tolerance := 1;
  ValidProofPayout := 10;
  ValidProofAddress := validAddress;
  MissedProofPayout := 20;
  MissedProofAddress := missedAddress;
|}.

(** The same contract with room for more failures. *)
Definition tolerantContract : FileContract := {|
  ContractFund := 100;
  FileMerkleRoot := replicate 32 "042"%byte;
  FileSize := 4096;
  Start := 10;
  End_ := 20;
  ChallengeFrequency := 5;
  Tolerance := 3;
  ValidProofPayout := 10;
  ValidProofAddress := validAddress;
  MissedProofPayout := 20;
  MissedProofAddress := missedAddress;
|}.

(** A contract on an empty file. *)
Definition emptyFileContract : FileContract := {|
  ContractFund := 100;
  FileMerkleRoot := replicate 32 "042"%byte;
  FileSize := 0;
  Start := 10;
  End_ := 20;
  ChallengeFrequency := 5;
  Tolerance := 1;
  ValidProofPayout := 10;
  ValidProofAddress := validAddress;
  MissedProofPayout := 20;
  MissedProofAddress := missedAddress;
|}.

Definition emptyNode : BlockNode := mkBlockNode [] [].

(** A state at height [h] whose only open contract is [fc], with
    identifier [id1], the full fund and window flag [satisfied]. *)
Definition stateWith (h : Z) (fc : FileContract) (satisfied : bool) : State := {|
  Height := h;
  objects := {[ 1%positive := mkOpenContract fc id1 (ContractFund fc) 0 satisfied ]};
  OpenContracts := {[ id1 := 1%positive ]};
  UnspentOutputs := ∅;
  CurrentPath := ∅;
  currentBlockNode := emptyNode;
|}.

Definition proof1 : StorageProof := mkStorageProof id1 [] [].

(** The identifier of the valid-proof output of [contract] at height 12. *)
Definition proofOutputID : OutputID := (storageProofOutputID contract id1 12 true).1.

(** A state in which that identifier is already taken. *)
Definition stateTaken : State :=
  setUnspentOutputs {[ proofOutputID := mkOutput 7 missedAddress ]}
                    (stateWith 12 contract false).

(** A contract on a file of one byte: its only segment index is 0. *)
Definition oneByteContract : FileContract := {|
  ContractFund := 100;
  FileMerkleRoot := replicate 32 "042"%byte;
  FileSize := 1;
  Start := 10;
  End_ := 20;
  ChallengeFrequency := 5;
  Tolerance := 1;
  ValidProofPayout := 10;
  ValidProofAddress := validAddress;
  MissedProofPayout := 20;
  MissedProofAddress := missedAddress;
|}.

(** The identifiers of the two outputs of the scenario at height 15. *)
Definition missedOutputID : OutputID := (storageProofOutputID contract id1 15 false).1.
Definition terminationOutputID : OutputID := contractTerminationOutputID contract id1 true.

(** The state of the scenario once the scan has visited the contract. *)
Definition scannedState : State := {|
  Height := 15;
  objects := {[ 1%positive := mkOpenContract contract id1 80 1 false ]};
  OpenContracts := {[ id1 := 1%positive ]};
  UnspentOutputs := <[ terminationOutputID := mkOutput 80 missedAddress ]>
                      {[ missedOutputID := mkOutput 20 missedAddress ]};
  CurrentPath := ∅;
  currentBlockNode := mkBlockNode [mkMissedStorageProof missedOutputID id1] [1%positive];
|}.

(** The state of the scenario after the maintenance pass. *)
Definition terminatedState : State := setOpenContracts ∅ scannedState.

(** A second contract, with windows of 7 blocks. *)
Definition id2 : ContractID := replicate 32 "018"%byte.

Definition contract2 : FileContract := {|
  ContractFund := 50;
  FileMerkleRoot := replicate 32 "043"%byte;
  FileSize := 1024;
  Start := 10;
  End_ := 30;
  ChallengeFrequency := 7;
  Tolerance := 2;
  ValidProofPayout := 5;
  ValidProofAddress := validAddress;
  MissedProofPayout := 5;
  MissedProofAddress := missedAddress;
|}.

(** A contract that the validity check accepts at height 12 and whose
    challenge frequency is zero. *)
Definition zeroFrequencyContract : FileContract := {|
  ContractFund := 50;
  FileMerkleRoot := replicate 32 "043"%byte;
  FileSize := 1024;
  Start := 14;
  End_ := 30;
  ChallengeFrequency := 0;
  Tolerance := 2;
  ValidProofPayout := 5;
  ValidProofAddress := validAddress;
  MissedProofPayout := 5;
  MissedProofAddress := missedAddress;
|}.

(** A state at height [h] with the contract of the scenario, with window
    flag [satisfied], and the second contract, its window satisfied. *)
Definition twoContracts (h : Z) (satisfied : bool) : State := {|
  Height := h;
  objects := {[ 1%positive := mkOpenContract contract id1 100 0 satisfied;
                2%positive := mkOpenContract contract2 id2 50 0 true ]};
  OpenContracts := {[ id1 := 1%positive; id2 := 2%positive ]};
  UnspentOutputs := ∅;
  CurrentPath := ∅;
  currentBlockNode := emptyNode;
|}.

(** The state an operation returns, and the state it started from if it
    panicked. *)
Definition orElse (r : result State) (s : State) : State :=
  match r with
  | Ok s' => s'
  | Panic _ => s
  end.

Definition passed (visit : list ptr) (s : State) : State :=
  orElse (contractMaintenanceIn visit s) s.

Definition inverted (s : State) : State :=
  orElse (inverseContractMaintenance s) s.

Definition applied (s : State) (sp : StorageProof) : State :=
  orElse (applyStorageProof s sp) s.

Definition proof2 : StorageProof := mkStorageProof id2 [] [].

(** A block whose missed-proof record names a contract that is not open. *)
Definition orphanRecordState : State :=
  setBlockNode (mkBlockNode [mkMissedStorageProof missedOutputID id2] [])
               (stateWith 15 contract false).

(** A block whose missed-proof record names an output that is not there. *)
Definition missingOutputState : State :=
  setBlockNode (mkBlockNode [mkMissedStorageProof missedOutputID id1] [])
               (setObject 1%positive (mkOpenContract contract id1 80 1 false)
                          (stateWith 15 contract false)).

End Sample.

(** ** Integer types *)

Lemma modulus_pos (t : IntType) : 0 < modulus t.
Proof. unfold modulus. apply Z.pow_pos_nonneg; lia. Qed.

Lemma modulus_half (t : IntType) : modulus t = 2 * (modulus t / 2).
Proof.
  unfold modulus.
  replace (Z.pos (bits t)) with (Z.succ (Z.pos (bits t) - 1)) by lia.
  rewrite Z.pow_succ_r by lia.
  rewrite (Z.mul_comm 2), Z.div_mul by lia. lia.
Qed.

Lemma maxInt_minInt (t : IntType) : maxInt t - minInt t = modulus t - 1.
Proof.
  unfold maxInt, minInt. destruct (signed t); [|lia].
  pose proof (modulus_half t). lia.
Qed.

Lemma minInt_nonpos (t : IntType) : minInt t ≤ 0.
Proof.
  unfold minInt. destruct (signed t); [|lia].
  pose proof (modulus_pos t). pose proof (modulus_half t). lia.
Qed.

(** A value of the type is stored as it is. *)
Lemma wrap_inRange (t : IntType) (z : Z) : inRange t z → wrap t z = z.
Proof.
  unfold inRange, wrap. intros [Hlo Hhi].
  pose proof (maxInt_minInt t).
  rewrite Z.mod_small by lia. lia.
Qed.

(** Whatever is stored is a value of the type. *)
Lemma wrap_range (t : IntType) (z : Z) : inRange t (wrap t z).
Proof.
  unfold inRange, wrap.
  pose proof (maxInt_minInt t).
  pose proof (Z.mod_pos_bound (z - minInt t) (modulus t) (modulus_pos t)).
  lia.
Qed.

(** Taking an amount off and putting it back, in the arithmetic of the
    type, gives the value back. *)
Lemma wrap_sub_add (t : IntType) (a b : Z) :
  inRange t a → wrap t (wrap t (a - b) + b) = a.
Proof.
  intros Ha. rewrite <- (wrap_inRange t a Ha) at 2. unfold wrap.
  replace ((a - b - minInt t) `mod` modulus t + minInt t + b - minInt t)
    with ((a - b - minInt t) `mod` modulus t + b) by lia.
  rewrite Zplus_mod_idemp_l. do 2 f_equal. lia.
Qed.

Lemma wrap_add_sub (t : IntType) (a b : Z) :
  inRange t a → wrap t (wrap t (a + b) - b) = a.
Proof.
  intros Ha. replace (a + b) with (a - (- b)) by lia.
  replace (wrap t (a - - b) - b) with (wrap t (a - - b) + - b) by lia.
  by apply wrap_sub_add.
Qed.

(** ** Pointers and the object store *)

Lemma deref_Some (s : State) (p : option ptr) (oc : OpenContract) :
  deref s p = Ok oc ↔ ∃ q, p = Some q ∧ objects s !! q = Some oc.
Proof.
  unfold deref. split.
  - destruct p as [q|]; [|discriminate].
    destruct (objects s !! q) eqn:E; [|discriminate].
    intros [= <-]. eauto.
  - intros (q & -> & ->). reflexivity.
Qed.

Lemma store_Ok (s : State) (q : ptr) (oc : OpenContract)
    (f : OpenContract → OpenContract) :
  objects s !! q = Some oc → store s (Some q) f = Ok (setObject q (f oc) s).
Proof. intros E. unfold store, deref. rewrite E. reflexivity. Qed.

Lemma openContractOf_Some (s : State) (id : ContractID) (oc : OpenContract) :
  openContractOf s id = Some oc ↔
  ∃ q, OpenContracts s !! id = Some q ∧ objects s !! q = Some oc.
Proof.
  unfold openContractOf. split.
  - destruct (OpenContracts s !! id) as [q|] eqn:E; [|discriminate].
    simpl. eauto.
  - intros (q & -> & E). exact E.
Qed.

Lemma deref_openContractOf (s : State) (id : ContractID) (oc : OpenContract) :
  deref s (OpenContracts s !! id) = Ok oc ↔ openContractOf s id = Some oc.
Proof.
  rewrite deref_Some, openContractOf_Some. split.
  - intros (q & E & Hq). eauto.
  - intros (q & E & Hq). eauto.
Qed.

(** ** Contract formation *)

Section Formation.

(** What [validContract] accepts, read off its three tests. *)
Lemma validContract_None (s : State) (c : FileContract) :
  validContract s c = None ↔
  0 ≤ ContractFund c ∧ Height s ≤ Start c ∧ Start c < End_ c.
Proof.
  unfold validContract.
  destruct (Z.ltb_spec (ContractFund c) 0); [split; [discriminate|lia]|].
  destruct (Z.ltb_spec (Start c) (Height s)); [split; [discriminate|lia]|].
  destruct (Z.leb_spec (End_ c) (Start c)); [split; [discriminate|lia]|].
  split; [lia|reflexivity].
Qed.

(** C3, where the code departs from the claim: a funded contract of
    positive duration whose [Start] equals the current height is accepted
    by [validContract], which returns no error although its own message
    asks for a start in the future. *)
Theorem validContract_accepts_start_at_height (s : State) (c : FileContract) :
  0 ≤ ContractFund c → Start c = Height s → Start c < End_ c →
  validContract s c = None.
Proof. intros Hf Hs He. apply validContract_None. lia. Qed.

(** The record [addContract] leaves under [id], whatever was there. *)
Lemma addContract_lookup (s : State) (c : FileContract) (id : ContractID) :
  openContractOf (addContract s c id) id =
  Some (mkOpenContract c id (ContractFund c) 0 true).
Proof.
  unfold openContractOf, addContract. simpl.
  rewrite lookup_insert_eq. simpl. apply lookup_insert_eq.
Qed.

(** The new object is a new one: no pointer of the state refers to it. *)
Lemma addContract_fresh (s : State) :
  objects s !! fresh (dom (objects s)) = None.
Proof. apply not_elem_of_dom, is_fresh. Qed.

(** The other contracts keep their records. *)
Lemma addContract_other (s : State) (c : FileContract) (id id' : ContractID)
    (oc : OpenContract) :
  id ≠ id' → openContractOf s id' = Some oc →
  openContractOf (addContract s c id) id' = Some oc.
Proof.
  intros Hne. rewrite !openContractOf_Some. intros (q & Hq & Ho).
  exists q. unfold addContract. simpl.
  rewrite lookup_insert_ne by done. split; [done|].
  rewrite lookup_insert_ne; [done|].
  intros <-. rewrite addContract_fresh in Ho. discriminate.
Qed.

(** C2, as the code has it: for every state and every contract id already
    present in the open-contract map, [addContract] with that id does not
    fail; the entry is replaced by a newly made record with the full fund,
    no failure and the window satisfied, and the other entries are kept. *)
Theorem addContract_present_replaces (s : State) (c : FileContract)
    (id : ContractID) (old : OpenContract) :
  openContractOf s id = Some old →
  openContractOf (addContract s c id) id =
    Some (mkOpenContract c id (ContractFund c) 0 true)
  ∧ ∀ id' oc, id ≠ id' → openContractOf s id' = Some oc →
      openContractOf (addContract s c id) id' = Some oc.
Proof.
  intros _. split; [apply addContract_lookup|].
  intros id' oc. apply addContract_other.
Qed.

End Formation.

(** ** Storage proofs *)

Section Proofs.
Context `{Externals}.

Lemma payoutOf_min (fundsRemaining proofPayout : Z) :
  payoutOf fundsRemaining proofPayout = Z.min fundsRemaining proofPayout.
Proof. unfold payoutOf. destruct (Z.ltb_spec fundsRemaining proofPayout); lia. Qed.

(** A payout out of non-negative funds leaves a value of the currency type. *)
Lemma funds_after_payout (f v : Z) :
  0 ≤ f ≤ maxInt Currency → 0 ≤ v →
  wrap Currency (f - payoutOf f v) = f - Z.min f v.
Proof.
  intros Hf Hv. rewrite payoutOf_min. apply wrap_inRange.
  unfold inRange. pose proof (minInt_nonpos Currency). lia.
Qed.

(** C4, as the code has it: when the contract has no window at the current
    height, that is when [WindowIndex] returns an error,
    [currentProofIndex] reports no failure: it returns the index 0, which
    its caller cannot tell from segment 0. *)
Theorem currentProofIndex_no_window (s : State) (sp : StorageProof)
    (oc : OpenContract) (w : Z) (e : string) :
  openContractOf s (sp_ContractID sp) = Some oc →
  WindowIndex (oc_FileContract oc) (Height s) = (w, Some e) →
  currentProofIndex s sp = Ok 0.
Proof.
  intros Hoc Hw. apply deref_openContractOf in Hoc.
  unfold currentProofIndex. rewrite Hoc. simpl. rewrite Hw. reflexivity.
Qed.

(** C10: with an open contract and an active window, the index is the seed
    modulo [int64(FileSize)], with no test of the divisor.  For
    [FileSize = 0] the computation is a division by zero; it yields an index
    exactly when the divisor is not zero, and for a positive [FileSize] (of
    the range of [int64]) that index is [seed mod FileSize], below
    [FileSize]. *)
Theorem currentProofIndex_FileSize (s : State) (sp : StorageProof)
    (oc : OpenContract) (w : Z) :
  openContractOf s (sp_ContractID sp) = Some oc →
  WindowIndex (oc_FileContract oc) (Height s) = (w, None) →
  let size := wrap int64 (FileSize (oc_FileContract oc)) in
  let seed := seedInt s sp (oc_FileContract oc) w in
  (FileSize (oc_FileContract oc) = 0 → currentProofIndex s sp = Panic DivideByZero)
  ∧ (size = 0 → currentProofIndex s sp = Panic DivideByZero)
  ∧ (size ≠ 0 →
     currentProofIndex s sp = Ok (seed `mod` Z.abs size)
     ∧ 0 ≤ seed `mod` Z.abs size < Z.abs size)
  ∧ (0 < FileSize (oc_FileContract oc) ≤ maxInt int64 →
     currentProofIndex s sp = Ok (seed `mod` FileSize (oc_FileContract oc))
     ∧ 0 ≤ seed `mod` FileSize (oc_FileContract oc) < FileSize (oc_FileContract oc)).
Proof.
  intros Hoc Hw size seed. apply deref_openContractOf in Hoc.
  assert (Hzero : size = 0 → currentProofIndex s sp = Panic DivideByZero).
  { intros E. unfold currentProofIndex. rewrite Hoc. simpl. rewrite Hw.
    fold size. rewrite E. reflexivity. }
  assert (Hok : size ≠ 0 →
            currentProofIndex s sp = Ok (seed `mod` Z.abs size)
            ∧ 0 ≤ seed `mod` Z.abs size < Z.abs size).
  { intros Hne.
    pose proof (Z.mod_pos_bound seed (Z.abs size) ltac:(lia)) as Hb.
    split; [|exact Hb].
    unfold currentProofIndex. rewrite Hoc. simpl. rewrite Hw.
    fold size seed. unfold bigMod.
    destruct (decide (size = 0)) as [E|_]; [done|]. simpl.
    pose proof (wrap_range int64 (FileSize (oc_FileContract oc))) as Hr.
    fold size in Hr. unfold inRange in Hr.
    change (minInt int64) with (- 9223372036854775808) in *.
    change (maxInt int64) with 9223372036854775807 in *.
    rewrite (wrap_inRange int64).
    - rewrite (wrap_inRange uint64); [reflexivity|].
      unfold inRange. change (minInt uint64) with 0.
      change (maxInt uint64) with 18446744073709551615. lia.
    - unfold inRange. change (minInt int64) with (- 9223372036854775808).
      change (maxInt int64) with 9223372036854775807. lia. }
  split; [|split; [exact Hzero|split; [exact Hok|]]].
  - intros E. apply Hzero. subst size. rewrite E. reflexivity.
  - intros Hfs.
    assert (E : size = FileSize (oc_FileContract oc)).
    { apply wrap_inRange. unfold inRange. pose proof (minInt_nonpos int64). lia. }
    destruct Hok as [Hrun Hb]; [lia|].
    rewrite E, Z.abs_eq in Hrun, Hb by lia. by split.
Qed.

(** [validProof] only accepts a proof for an open contract whose window is
    not satisfied yet. *)
Lemma validProof_open (s : State) (sp : StorageProof) :
  validProof s sp = Ok None →
  ∃ oc, openContractOf s (sp_ContractID sp) = Some oc ∧ WindowSatisfied oc = false.
Proof.
  unfold validProof.
  destruct (OpenContracts s !! sp_ContractID sp) as [q|] eqn:Hq; [|discriminate].
  destruct (deref s (Some q)) as [oc|] eqn:Hd; [|discriminate]. simpl.
  destruct (WindowSatisfied oc) eqn:Hws; [discriminate|].
  intros _. exists oc. split; [|done].
  apply deref_openContractOf. by rewrite Hq.
Qed.

(** The state [applyStorageProof] produces, written out. *)
Lemma applyStorageProof_Ok (s : State) (sp : StorageProof) (q : ptr)
    (oc : OpenContract) (oid : OutputID) :
  OpenContracts s !! sp_ContractID sp = Some q →
  objects s !! q = Some oc →
  StorageProofOutputID (oc_FileContract oc) (oc_ContractID oc) (Height s) true
    = (oid, None) →
  let payout := payoutOf (FundsRemaining oc) (ValidProofPayout (oc_FileContract oc)) in
  applyStorageProof s sp =
    Ok (mkState (Height s)
          (<[q := mkOpenContract (oc_FileContract oc) (oc_ContractID oc)
                    (wrap Currency (FundsRemaining oc - payout)) (Failures oc) true]>
             (objects s))
          (OpenContracts s)
          (<[oid := mkOutput payout (ValidProofAddress (oc_FileContract oc))]>
             (UnspentOutputs s))
          (CurrentPath s) (currentBlockNode s)).
Proof.
  intros Hq Ho Hid payout. unfold applyStorageProof.
  rewrite Hq. unfold deref at 1. rewrite Ho. simpl. rewrite Hid. simpl.
  rewrite Hq. unfold store, deref. simpl. rewrite Ho. simpl.
  rewrite Hq. rewrite lookup_insert_eq. simpl.
  unfold setObject. simpl. rewrite insert_insert_eq. reflexivity.
Qed.

(** When the derivation of the output ID fails, and only then, the proof
    application panics. *)
Lemma applyStorageProof_Panic (s : State) (sp : StorageProof)
    (oc : OpenContract) (oid : OutputID) (e : string) :
  openContractOf s (sp_ContractID sp) = Some oc →
  StorageProofOutputID (oc_FileContract oc) (oc_ContractID oc) (Height s) true
    = (oid, Some e) →
  applyStorageProof s sp = Panic (PanicError e).
Proof.
  intros Hoc Hid. apply deref_openContractOf in Hoc.
  unfold applyStorageProof. rewrite Hoc. simpl. rewrite Hid. reflexivity.
Qed.

(** C5, as the code has it: for an open contract, [applyStorageProof]
    panics when the derivation of the output ID returns an error, and only
    then; when the output ID it derives is already in the unspent-output
    set, it does not fail and the new output takes the place of the
    existing one. *)
Theorem applyStorageProof_existing_output (s : State) (sp : StorageProof)
    (oc : OpenContract) (oid : OutputID) (err : option string) (old : Output) :
  openContractOf s (sp_ContractID sp) = Some oc →
  StorageProofOutputID (oc_FileContract oc) (oc_ContractID oc) (Height s) true
    = (oid, err) →
  UnspentOutputs s !! oid = Some old →
  match err with
  | Some e => applyStorageProof s sp = Panic (PanicError e)
  | None =>
      ∃ s', applyStorageProof s sp = Ok s'
        ∧ UnspentOutputs s' !! oid =
            Some (mkOutput (Z.min (FundsRemaining oc)
                                  (ValidProofPayout (oc_FileContract oc)))
                           (ValidProofAddress (oc_FileContract oc)))
  end.
Proof.
  intros Hoc Hid _. destruct err as [e|].
  - by apply applyStorageProof_Panic with oc oid.
  - apply openContractOf_Some in Hoc as (q & Hq & Ho).
    eexists. split; [by apply applyStorageProof_Ok|].
    simpl. rewrite lookup_insert_eq, payoutOf_min. reflexivity.
Qed.

(** C6: for every open contract, [applyStorageProof] (on a proof that
    was validated or not) creates, at the valid-proof output ID, an output
    of value [min FundsRemaining ValidProofPayout] paid to
    [ValidProofAddress], takes exactly that payout off [FundsRemaining]
    and sets [WindowSatisfied]; nothing else of the record changes. *)
Theorem applyStorageProof_payout (s : State) (sp : StorageProof)
    (oc : OpenContract) (oid : OutputID) :
  openContractOf s (sp_ContractID sp) = Some oc →
  StorageProofOutputID (oc_FileContract oc) (oc_ContractID oc) (Height s) true
    = (oid, None) →
  let payout := Z.min (FundsRemaining oc) (ValidProofPayout (oc_FileContract oc)) in
  ∃ s' oc',
    applyStorageProof s sp = Ok s'
    ∧ UnspentOutputs s' !! oid =
        Some (mkOutput payout (ValidProofAddress (oc_FileContract oc)))
    ∧ openContractOf s' (sp_ContractID sp) = Some oc'
    ∧ WindowSatisfied oc' = true
    ∧ FundsRemaining oc' = wrap Currency (FundsRemaining oc - payout)
    ∧ (0 ≤ FundsRemaining oc ≤ maxInt Currency →
       0 ≤ ValidProofPayout (oc_FileContract oc) →
       FundsRemaining oc' = FundsRemaining oc - payout)
    ∧ oc_FileContract oc' = oc_FileContract oc
    ∧ oc_ContractID oc' = oc_ContractID oc
    ∧ Failures oc' = Failures oc.
Proof.
  intros Hoc Hid payout.
  apply openContractOf_Some in Hoc as (q & Hq & Ho).
  eexists. eexists. split; [by apply applyStorageProof_Ok|].
  split; [simpl; by rewrite lookup_insert_eq, payoutOf_min|].
  split.
  { apply openContractOf_Some. exists q. simpl. split; [done|].
    apply lookup_insert_eq. }
  simpl. rewrite payoutOf_min. repeat split; try done.
  intros Hf Hv. rewrite <- payoutOf_min. by apply funds_after_payout.
Qed.

End Proofs.

(** ** Maintenance *)

Section Maintenance.
Context `{Externals}.

Lemma store_inv (s s' : State) (p : option ptr) (f : OpenContract → OpenContract) :
  store s p f = Ok s' →
  ∃ q oc, p = Some q ∧ objects s !! q = Some oc ∧ s' = setObject q (f oc) s.
Proof.
  unfold store. destruct (deref s p) as [oc|] eqn:Hd; [|discriminate].
  apply deref_Some in Hd as (q & -> & Ho). simpl.
  intros [= <-]. eauto.
Qed.

(** *** The window check *)

(** At a window boundary with the proof missing: the missed-proof output,
    its audit record, the payout and the failure. *)
Lemma windowCheck_missed (s : State) (p : ptr) (oc : OpenContract) (oid : OutputID) :
  objects s !! p = Some oc →
  ChallengeFrequency (oc_FileContract oc) ≠ 0 →
  Z.rem (wrap BlockHeight (Height s - Start (oc_FileContract oc)))
        (ChallengeFrequency (oc_FileContract oc)) = 0 →
  Start (oc_FileContract oc) < Height s →
  WindowSatisfied oc = false →
  StorageProofOutputID (oc_FileContract oc) (oc_ContractID oc) (Height s) false
    = (oid, None) →
  let payout := payoutOf (FundsRemaining oc) (MissedProofPayout (oc_FileContract oc)) in
  windowCheck s p =
    Ok (mkState (Height s)
          (<[p := mkOpenContract (oc_FileContract oc) (oc_ContractID oc)
                    (wrap Currency (FundsRemaining oc - payout))
                    (wrap Counter (Failures oc + 1)) false]> (objects s))
          (OpenContracts s)
          (<[oid := mkOutput payout (MissedProofAddress (oc_FileContract oc))]>
             (UnspentOutputs s))
          (CurrentPath s)
          (mkBlockNode
             (MissedStorageProofs (currentBlockNode s)
                ++ [mkMissedStorageProof oid (oc_ContractID oc)])
             (ContractTerminations (currentBlockNode s)))).
Proof.
  intros Ho Hcf Hrem Hgt Hws Hid payout.
  unfold windowCheck, deref. rewrite Ho. simpl.
  unfold goRem. destruct (decide _) as [E|_]; [done|]. simpl.
  rewrite Hrem. simpl.
  destruct (Z.gtb_spec (Height s) (Start (oc_FileContract oc))); [|lia].
  rewrite Hws. simpl.
  unfold missedProof, deref. rewrite Ho. simpl. rewrite Hid. simpl.
  unfold store, deref. simpl. rewrite Ho. simpl.
  rewrite lookup_insert_eq. simpl. rewrite lookup_insert_eq. simpl.
  unfold setObject. simpl. rewrite !insert_insert_eq. reflexivity.
Qed.

(** At a window boundary with the proof made: a new window begins. *)
Lemma windowCheck_satisfied (s : State) (p : ptr) (oc : OpenContract) :
  objects s !! p = Some oc →
  ChallengeFrequency (oc_FileContract oc) ≠ 0 →
  Z.rem (wrap BlockHeight (Height s - Start (oc_FileContract oc)))
        (ChallengeFrequency (oc_FileContract oc)) = 0 →
  Start (oc_FileContract oc) < Height s →
  WindowSatisfied oc = true →
  windowCheck s p = Ok (setObject p (setWindowSatisfied false oc) s).
Proof.
  intros Ho Hcf Hrem Hgt Hws.
  unfold windowCheck, deref. rewrite Ho. simpl.
  unfold goRem. destruct (decide _) as [E|_]; [done|]. simpl.
  rewrite Hrem. simpl.
  destruct (Z.gtb_spec (Height s) (Start (oc_FileContract oc))); [|lia].
  rewrite Hws. simpl. by apply store_Ok.
Qed.

(** Away from a window boundary nothing happens. *)
Lemma windowCheck_no_boundary (s : State) (p : ptr) (oc : OpenContract) :
  objects s !! p = Some oc →
  ChallengeFrequency (oc_FileContract oc) ≠ 0 →
  Z.rem (wrap BlockHeight (Height s - Start (oc_FileContract oc)))
        (ChallengeFrequency (oc_FileContract oc)) ≠ 0
  ∨ Height s ≤ Start (oc_FileContract oc) →
  windowCheck s p = Ok s.
Proof.
  intros Ho Hcf Hnb.
  unfold windowCheck, deref. rewrite Ho. simpl.
  unfold goRem. destruct (decide _) as [E|_]; [done|]. simpl.
  destruct Hnb as [Hrem|Hle].
  - destruct (Z.eqb_spec (Z.rem (wrap BlockHeight
                (Height s - Start (oc_FileContract oc)))
                (ChallengeFrequency (oc_FileContract oc))) 0); done.
  - destruct (Z.gtb_spec (Height s) (Start (oc_FileContract oc))); [lia|].
    by rewrite andb_false_r.
Qed.

(** A challenge frequency of zero makes the boundary test divide by zero. *)
Lemma windowCheck_zero_frequency (s : State) (p : ptr) (oc : OpenContract) :
  objects s !! p = Some oc →
  ChallengeFrequency (oc_FileContract oc) = 0 →
  windowCheck s p = Panic DivideByZero.
Proof.
  intros Ho Hcf. unfold windowCheck, deref. rewrite Ho. simpl.
  unfold goRem. rewrite Hcf. reflexivity.
Qed.

(** What the window check never touches. *)
Lemma windowCheck_frame (s s1 : State) (p : ptr) :
  windowCheck s p = Ok s1 →
  Height s1 = Height s
  ∧ OpenContracts s1 = OpenContracts s
  ∧ ContractTerminations (currentBlockNode s1)
      = ContractTerminations (currentBlockNode s).
Proof.
  unfold windowCheck.
  destruct (deref s (Some p)) as [oc|] eqn:Hd; [|discriminate]. simpl.
  destruct (goRem _ _) as [r|]; [|discriminate]. simpl.
  destruct (_ && _); [|by intros [= <-]].
  destruct (negb (WindowSatisfied oc)).
  - unfold missedProof. rewrite Hd. simpl.
    destruct (StorageProofOutputID _ _ _ _) as [oid [e|]]; [discriminate|].
    destruct (store _ _ _) as [s3|] eqn:H3; [|discriminate]. simpl.
    destruct (store s3 _ _) as [s4|] eqn:H4; [|discriminate]. simpl.
    intros H5.
    apply store_inv in H3 as (q3 & o3 & _ & _ & ->).
    apply store_inv in H4 as (q4 & o4 & _ & _ & ->).
    apply store_inv in H5 as (q5 & o5 & _ & _ & ->). done.
  - simpl. intros H5.
    apply store_inv in H5 as (q5 & o5 & _ & _ & ->). done.
Qed.

(** *** The termination check *)

Lemma terminationCheck_eq (s : State) (p : ptr) (oc : OpenContract)
    (del : list ContractID) :
  objects s !! p = Some oc →
  terminationCheck s p del =
    Ok (if terminates s oc then
          (mkState (Height s) (objects s) (OpenContracts s)
             (if FundsRemaining oc =? 0 then UnspentOutputs s
              else <[ContractTerminationOutputID (oc_FileContract oc)
                       (oc_ContractID oc)
                       (Failures oc =? Tolerance (oc_FileContract oc)) :=
                     mkOutput (FundsRemaining oc)
                       (if Tolerance (oc_FileContract oc) =? Failures oc
                        then MissedProofAddress (oc_FileContract oc)
                        else ValidProofAddress (oc_FileContract oc))]>
                     (UnspentOutputs s))
             (CurrentPath s)
             (mkBlockNode (MissedStorageProofs (currentBlockNode s))
                          (ContractTerminations (currentBlockNode s) ++ [p])),
           del ++ [oc_ContractID oc])
        else (s, del)).
Proof.
  intros Ho. unfold terminationCheck, deref. rewrite Ho. simpl.
  destruct (terminates s oc); [|done].
  destruct (FundsRemaining oc =? 0); reflexivity.
Qed.

Lemma maintainContract_inv (s s' : State) (p : ptr) (del del' : list ContractID) :
  maintainContract s p del = Ok (s', del') →
  ∃ s1, windowCheck s p = Ok s1 ∧ terminationCheck s1 p del = Ok (s', del').
Proof.
  unfold maintainContract.
  destruct (windowCheck s p) as [s1|]; [|discriminate]. simpl. eauto.
Qed.

(** The termination output as one iteration of the scan leaves it. *)
Lemma maintainContract_termination_output (s s' : State) (p : ptr)
    (del del' : list ContractID) (oc' : OpenContract) :
  maintainContract s p del = Ok (s', del') →
  objects s' !! p = Some oc' →
  terminates s' oc' = true →
  FundsRemaining oc' ≠ 0 →
  let failed := Failures oc' =? Tolerance (oc_FileContract oc') in
  UnspentOutputs s' !!
      ContractTerminationOutputID (oc_FileContract oc') (oc_ContractID oc') failed
    = Some (mkOutput (FundsRemaining oc')
              (if failed then MissedProofAddress (oc_FileContract oc')
               else ValidProofAddress (oc_FileContract oc')))
  ∧ ContractTerminations (currentBlockNode s')
      = ContractTerminations (currentBlockNode s) ++ [p]
  ∧ del' = del ++ [oc_ContractID oc'].
Proof.
  intros Hm Ho' Ht Hf failed.
  apply maintainContract_inv in Hm as (s1 & Hw & Hc).
  apply windowCheck_frame in Hw as (Hh & _ & Hct).
  assert (Ho1 : objects s1 !! p = Some oc').
  { destruct (objects s1 !! p) as [oc1|] eqn:Hq;
      [|unfold terminationCheck, deref in Hc; rewrite Hq in Hc; discriminate].
    rewrite (terminationCheck_eq _ _ _ _ Hq) in Hc.
    destruct (terminates s1 oc1); injection Hc as <- <-; simpl in Ho';
      congruence. }
  rewrite (terminationCheck_eq _ _ _ _ Ho1) in Hc.
  assert (Ht1 : terminates s1 oc' = true).
  { rewrite <- Ht. unfold terminates.
    destruct (terminates s1 oc'); injection Hc as <- <-; reflexivity. }
  rewrite Ht1 in Hc. injection Hc as <- <-. simpl.
  destruct (Z.eqb_spec (FundsRemaining oc') 0) as [E|_]; [done|].
  rewrite lookup_insert_eq, Hct. subst failed.
  rewrite (Z.eqb_sym (Tolerance _)). done.
Qed.

(** *** The scan as a whole *)

Lemma sameContract_refl (oc : OpenContract) : sameContract oc oc.
Proof. by split. Qed.

Lemma sameContract_trans (oc1 oc2 oc3 : OpenContract) :
  sameContract oc1 oc2 → sameContract oc2 oc3 → sameContract oc1 oc3.
Proof. intros [E1 E2] [E3 E4]. split; congruence. Qed.

Lemma writesOutput_same (h : Z) (oc oc' : OpenContract) (oid : OutputID) :
  sameContract oc oc' → writesOutput h oc oid → writesOutput h oc' oid.
Proof. intros [E1 E2]. unfold writesOutput. by rewrite E1, E2. Qed.

(** At a boundary with the proof missing, a failing derivation of the
    output ID stops the pass. *)
Lemma windowCheck_id_error (s : State) (p : ptr) (oc : OpenContract)
    (oid : OutputID) (e : string) :
  objects s !! p = Some oc →
  ChallengeFrequency (oc_FileContract oc) ≠ 0 →
  Z.rem (wrap BlockHeight (Height s - Start (oc_FileContract oc)))
        (ChallengeFrequency (oc_FileContract oc)) = 0 →
  Start (oc_FileContract oc) < Height s →
  WindowSatisfied oc = false →
  StorageProofOutputID (oc_FileContract oc) (oc_ContractID oc) (Height s) false
    = (oid, Some e) →
  windowCheck s p = Panic (PanicError e).
Proof.
  intros Ho Hcf Hrem Hgt Hws Hid.
  unfold windowCheck, deref. rewrite Ho. simpl.
  unfold goRem. destruct (decide _) as [E|_]; [done|]. simpl.
  rewrite Hrem. simpl.
  destruct (Z.gtb_spec (Height s) (Start (oc_FileContract oc))); [|lia].
  rewrite Hws. simpl.
  unfold missedProof, deref. rewrite Ho. simpl. rewrite Hid. reflexivity.
Qed.

(** What the window check does to the state: it rewrites the record of the
    contract, keeping whose contract it is, and writes no output but the
    missed-proof one of that contract. *)
Lemma windowCheck_effect (s s1 : State) (p : ptr) :
  windowCheck s p = Ok s1 →
  ∃ oc oc1,
    objects s !! p = Some oc
    ∧ objects s1 = <[p := oc1]> (objects s)
    ∧ sameContract oc oc1
    ∧ ∀ oid, ¬ writesOutput (Height s) oc oid →
        UnspentOutputs s1 !! oid = UnspentOutputs s !! oid.
Proof.
  intros Hw.
  destruct (objects s !! p) as [oc|] eqn:Ho;
    [|unfold windowCheck, deref in Hw; rewrite Ho in Hw; discriminate].
  destruct (decide (ChallengeFrequency (oc_FileContract oc) = 0)) as [Hcf|Hcf];
    [rewrite (windowCheck_zero_frequency _ _ _ Ho Hcf) in Hw; discriminate|].
  exists oc.
  destruct (decide (Z.rem (wrap BlockHeight (Height s - Start (oc_FileContract oc)))
                      (ChallengeFrequency (oc_FileContract oc)) = 0)) as [Hrem|Hrem];
    [destruct (decide (Start (oc_FileContract oc) < Height s)) as [Hgt|Hgt]|].
  - destruct (WindowSatisfied oc) eqn:Hws.
    + rewrite (windowCheck_satisfied _ _ _ Ho Hcf Hrem Hgt Hws) in Hw.
      injection Hw as <-. eexists. split; [done|]. split; [reflexivity|].
      split; [by split|]. done.
    + destruct (StorageProofOutputID (oc_FileContract oc) (oc_ContractID oc)
                  (Height s) false) as [oid [e|]] eqn:Hid.
      * rewrite (windowCheck_id_error _ _ _ _ _ Ho Hcf Hrem Hgt Hws Hid) in Hw.
        discriminate.
      * rewrite (windowCheck_missed _ _ _ _ Ho Hcf Hrem Hgt Hws Hid) in Hw.
        injection Hw as <-. eexists. split; [done|]. split; [reflexivity|].
        split; [by split|].
        intros oid' Hnw. simpl. apply lookup_insert_ne.
        intros <-. apply Hnw. left. by rewrite Hid.
  - rewrite (windowCheck_no_boundary _ _ _ Ho Hcf) in Hw by (right; lia).
    injection Hw as <-. exists oc. split; [done|].
    split; [by rewrite insert_id|]. split; [apply sameContract_refl|done].
  - rewrite (windowCheck_no_boundary _ _ _ Ho Hcf) in Hw by (by left).
    injection Hw as <-. exists oc. split; [done|].
    split; [by rewrite insert_id|]. split; [apply sameContract_refl|done].
Qed.

(** The three ways the window check can complete. *)
Lemma windowCheck_cases (s s1 : State) (p : ptr) (oc : OpenContract) :
  objects s !! p = Some oc →
  windowCheck s p = Ok s1 →
  s1 = s
  ∨ (WindowSatisfied oc = true ∧ s1 = setObject p (setWindowSatisfied false oc) s)
  ∨ (WindowSatisfied oc = false
     ∧ ∃ oid,
         StorageProofOutputID (oc_FileContract oc) (oc_ContractID oc) (Height s) false
           = (oid, None)
         ∧ windowCheck s p =
             Ok (mkState (Height s)
                   (<[p := mkOpenContract (oc_FileContract oc) (oc_ContractID oc)
                             (wrap Currency
                                (FundsRemaining oc
                                 - payoutOf (FundsRemaining oc)
                                     (MissedProofPayout (oc_FileContract oc))))
                             (wrap Counter (Failures oc + 1)) false]> (objects s))
                   (OpenContracts s)
                   (<[oid := mkOutput
                               (payoutOf (FundsRemaining oc)
                                  (MissedProofPayout (oc_FileContract oc)))
                               (MissedProofAddress (oc_FileContract oc))]>
                      (UnspentOutputs s))
                   (CurrentPath s)
                   (mkBlockNode
                      (MissedStorageProofs (currentBlockNode s)
                         ++ [mkMissedStorageProof oid (oc_ContractID oc)])
                      (ContractTerminations (currentBlockNode s))))).
Proof.
  intros Ho Hw.
  destruct (decide (ChallengeFrequency (oc_FileContract oc) = 0)) as [Hcf|Hcf];
    [rewrite (windowCheck_zero_frequency _ _ _ Ho Hcf) in Hw; discriminate|].
  destruct (decide (Z.rem (wrap BlockHeight (Height s - Start (oc_FileContract oc)))
                      (ChallengeFrequency (oc_FileContract oc)) = 0)) as [Hrem|Hrem];
    [destruct (decide (Start (oc_FileContract oc) < Height s)) as [Hgt|Hgt]|].
  - destruct (WindowSatisfied oc) eqn:Hws.
    + rewrite (windowCheck_satisfied _ _ _ Ho Hcf Hrem Hgt Hws) in Hw.
      injection Hw as <-. right. left. by split.
    + destruct (StorageProofOutputID (oc_FileContract oc) (oc_ContractID oc)
                  (Height s) false) as [oid [e|]] eqn:Hid.
      * rewrite (windowCheck_id_error _ _ _ _ _ Ho Hcf Hrem Hgt Hws Hid) in Hw.
        discriminate.
      * right. right. split; [done|]. exists oid. split; [done|].
        by apply windowCheck_missed.
  - rewrite (windowCheck_no_boundary _ _ _ Ho Hcf) in Hw by (right; lia).
    injection Hw as <-. by left.
  - rewrite (windowCheck_no_boundary _ _ _ Ho Hcf) in Hw by (by left).
    injection Hw as <-. by left.
Qed.

(** What one iteration of the scan does to the state. *)
Lemma maintainContract_effect (s s' : State) (p : ptr) (del del' : list ContractID) :
  maintainContract s p del = Ok (s', del') →
  ∃ oc oc1,
    objects s !! p = Some oc
    ∧ objects s' = <[p := oc1]> (objects s)
    ∧ sameContract oc oc1
    ∧ Height s' = Height s
    ∧ OpenContracts s' = OpenContracts s
    ∧ (∀ oid, ¬ writesOutput (Height s) oc oid →
         UnspentOutputs s' !! oid = UnspentOutputs s !! oid)
    ∧ (∀ q, q ∈ ContractTerminations (currentBlockNode s) →
         q ∈ ContractTerminations (currentBlockNode s'))
    ∧ (∀ id, id ∈ del → id ∈ del').
Proof.
  intros Hm. apply maintainContract_inv in Hm as (s1 & Hw & Hc).
  destruct (windowCheck_frame _ _ _ Hw) as (Hh & Hopen & Hct).
  destruct (windowCheck_effect _ _ _ Hw) as (oc & oc1 & Ho & Hobj & Hsame & Hout).
  assert (Ho1 : objects s1 !! p = Some oc1) by (rewrite Hobj; apply lookup_insert_eq).
  rewrite (terminationCheck_eq _ _ _ _ Ho1) in Hc.
  exists oc, oc1. split; [done|].
  destruct (terminates s1 oc1); injection Hc as <- <-; simpl.
  - split; [done|]. split; [done|]. split; [done|]. split; [done|].
    split; [|split].
    + intros oid Hnw. rewrite <- (Hout oid Hnw).
      destruct (FundsRemaining oc1 =? 0); [done|].
      apply lookup_insert_ne. intros <-. apply Hnw.
      apply (writesOutput_same _ oc1 oc).
      { destruct Hsame as [E1 E2]. by split. }
      right. eauto.
    + intros q Hq. rewrite Hct. apply elem_of_app. by left.
    + intros id Hid. apply elem_of_app. by left.
  - split; [done|]. split; [done|]. split; [done|]. split; [done|].
    split; [done|]. split; [|done]. intros q Hq. by rewrite Hct.
Qed.

Lemma scanContracts_app (l1 l2 : list ptr) (s : State) (del : list ContractID) :
  scanContracts (l1 ++ l2) s del =
  r ← scanContracts l1 s del; scanContracts l2 r.1 r.2.
Proof.
  revert s del. induction l1 as [|p l1 IH]; intros s del; simpl; [done|].
  destruct (maintainContract s p del) as [r|]; simpl; [apply IH|done].
Qed.

(** What the scan does to the state. *)
Lemma scanContracts_effect (visit : list ptr) :
  ∀ (s s' : State) (del del' : list ContractID),
    scanContracts visit s del = Ok (s', del') →
    Height s' = Height s
    ∧ OpenContracts s' = OpenContracts s
    ∧ (∀ p, p ∉ visit → objects s' !! p = objects s !! p)
    ∧ (∀ p oc', objects s' !! p = Some oc' →
         ∃ oc, objects s !! p = Some oc ∧ sameContract oc oc')
    ∧ (∀ oid,
         (∀ q oc, q ∈ visit → objects s !! q = Some oc →
                  ¬ writesOutput (Height s) oc oid) →
         UnspentOutputs s' !! oid = UnspentOutputs s !! oid)
    ∧ (∀ q, q ∈ ContractTerminations (currentBlockNode s) →
         q ∈ ContractTerminations (currentBlockNode s'))
    ∧ (∀ id, id ∈ del → id ∈ del').
Proof.
  induction visit as [|q l IH]; intros s s' del del' Hscan; simpl in Hscan.
  - injection Hscan as <- <-. repeat split; try done. eauto using sameContract_refl.
  - destruct (maintainContract s q del) as [[s1 del1]|] eqn:Hm; [|discriminate].
    simpl in Hscan.
    destruct (maintainContract_effect _ _ _ _ _ Hm)
      as (oc & oc1 & Ho & Hobj & Hsame & Hh & Hopen & Hout & Hct & Hdel).
    destruct (IH _ _ _ _ Hscan)
      as (Hh' & Hopen' & Hobj' & Hback' & Hout' & Hct' & Hdel').
    assert (Hback : ∀ p oc', objects s1 !! p = Some oc' →
                      ∃ oc0, objects s !! p = Some oc0 ∧ sameContract oc0 oc').
    { intros p oc' Hp. rewrite Hobj in Hp.
      destruct (decide (q = p)) as [<-|Hne].
      - rewrite lookup_insert_eq in Hp. injection Hp as <-. eauto.
      - rewrite lookup_insert_ne in Hp by done. eauto using sameContract_refl. }
    split; [congruence|]. split; [congruence|]. split; [|split; [|split; [|split]]].
    + intros p Hp. apply not_elem_of_cons in Hp as [Hne Hp].
      rewrite (Hobj' p Hp), Hobj. by apply lookup_insert_ne.
    + intros p oc' Hp.
      destruct (Hback' p oc' Hp) as (oc1' & Hp1 & Hs1).
      destruct (Hback p oc1' Hp1) as (oc0 & Hp0 & Hs0).
      exists oc0. split; [done|]. by apply sameContract_trans with oc1'.
    + intros oid Hnw. rewrite Hout'.
      * apply Hout. apply (Hnw q); [by left|done].
      * intros q' oc' Hq' Ho' Hwr.
        destruct (Hback q' oc' Ho') as (oc0 & Hp0 & [E1 E2]).
        apply (Hnw q' oc0); [by right|done|].
        rewrite <- Hh. apply (writesOutput_same _ oc' oc0); [by split|done].
    + intros p Hp. by apply Hct', Hct.
    + intros id Hid. by apply Hdel', Hdel.
Qed.

Lemma deleteContracts_lookup (l : list ContractID) (id : ContractID) :
  ∀ m : gmap ContractID ptr,
    id ∈ l → foldl (λ m contractID, delete contractID m) m l !! id = None.
Proof.
  induction l as [|k l IH]; intros m Hin; [by apply elem_of_nil in Hin|].
  simpl. destruct (decide (id ∈ l)) as [Hl|Hl]; [by apply IH|].
  apply elem_of_cons in Hin as [->|Hin]; [|done].
  clear IH. revert m. induction l as [|k' l IH]; intros m; simpl.
  - apply lookup_delete_eq.
  - apply not_elem_of_cons in Hl as [Hne Hl].
    rewrite delete_delete. by apply IH.
Qed.

(** C8: when a pass of maintenance terminates a contract that has funds
    left, the termination output, at the termination output ID of the
    contract, carries all the remaining funds, and it is paid to
    [MissedProofAddress] when [Failures == Tolerance] and to
    [ValidProofAddress] otherwise; the contract is recorded as terminated
    and removed from the open-contract map.  The pass visits each contract
    once, and the other contracts write under other output IDs. *)
Theorem termination_output (visit : list ptr) (s s' : State) (p : ptr)
    (oc' : OpenContract) :
  contractMaintenanceIn visit s = Ok s' →
  NoDup visit →
  p ∈ visit →
  objects s' !! p = Some oc' →
  terminates s' oc' = true →
  FundsRemaining oc' ≠ 0 →
  let failed := Failures oc' =? Tolerance (oc_FileContract oc') in
  let oidT :=
    ContractTerminationOutputID (oc_FileContract oc') (oc_ContractID oc') failed in
  (∀ q oc, q ∈ visit → q ≠ p → objects s !! q = Some oc →
           ¬ writesOutput (Height s) oc oidT) →
  UnspentOutputs s' !! oidT
    = Some (mkOutput (FundsRemaining oc')
              (if failed then MissedProofAddress (oc_FileContract oc')
               else ValidProofAddress (oc_FileContract oc')))
  ∧ p ∈ ContractTerminations (currentBlockNode s')
  ∧ OpenContracts s' !! oc_ContractID oc' = None.
Proof.
  intros Hrun Hnodup Hin Ho' Ht Hf failed oidT Hother.
  unfold contractMaintenanceIn in Hrun.
  destruct (scanContracts visit s []) as [[sF delF]|] eqn:Hscan; [|discriminate].
  injection Hrun as <-. simpl in *.
  apply list_elem_of_split in Hin as (l1 & l2 & ->).
  apply NoDup_app in Hnodup as (_ & Hl1 & Hl2).
  apply NoDup_cons in Hl2 as [Hp2 _].
  rewrite scanContracts_app in Hscan.
  destruct (scanContracts l1 s []) as [[sa dela]|] eqn:Hscan1; [|discriminate].
  simpl in Hscan.
  destruct (maintainContract sa p dela) as [[sb delb]|] eqn:Hm; [|discriminate].
  simpl in Hscan.
  destruct (scanContracts_effect _ _ _ _ _ Hscan1)
    as (Hha & _ & _ & Hbacka & _ & _ & _).
  destruct (maintainContract_effect _ _ _ _ _ Hm)
    as (oca & ocb & Hoa & Hobjb & _ & Hhb & _ & _ & _ & _).
  destruct (scanContracts_effect _ _ _ _ _ Hscan)
    as (HhF & HopenF & HobjF & _ & HoutF & HctF & HdelF).
  assert (Hob : objects sb !! p = Some oc') by (by rewrite <- (HobjF p Hp2)).
  assert (Htb : terminates sb oc' = true).
  { unfold terminates in *. simpl in Ht. by rewrite HhF in Ht. }
  destruct (maintainContract_termination_output _ _ _ _ _ _ Hm Hob Htb Hf)
    as (Hout & Hct & Hdel).
  split; [|split].
  - rewrite HoutF; [exact Hout|].
    intros q ocq Hq Hoq Hwr.
    assert (Hne : q ≠ p) by (intros ->; done).
    rewrite Hobjb, lookup_insert_ne in Hoq by done.
    destruct (Hbacka q ocq Hoq) as (oc0 & Ho0 & [E1 E2]).
    apply (Hother q oc0); [|done|done|].
    + apply elem_of_app. right. by right.
    + rewrite <- Hha, <- Hhb. apply (writesOutput_same _ ocq oc0); [by split|done].
  - apply HctF. rewrite Hct. apply elem_of_app. right. by left.
  - apply deleteContracts_lookup, HdelF. rewrite Hdel.
    apply elem_of_app. right. by left.
Qed.

End Maintenance.

(** ** A pass over a single contract *)

Section SingleContract.
Context `{Externals}.

(** With one open contract there is one order of visit. *)
Lemma rangeOrder_singleton (s : State) (id : ContractID) (p : ptr)
    (visit : list ptr) :
  OpenContracts s = {[id := p]} → rangeOrder s visit → visit = [p].
Proof.
  unfold rangeOrder. intros ->. rewrite map_to_list_singleton. simpl.
  apply Permutation_singleton_r.
Qed.

(** The order [contractMaintenance] is run with is one of them. *)
Lemma contractMaintenance_rangeOrder (s : State) :
  rangeOrder s (map_to_list (OpenContracts s)).*2
  ∧ contractMaintenance s = contractMaintenanceIn (map_to_list (OpenContracts s)).*2 s.
Proof. split; [unfold rangeOrder|]; reflexivity. Qed.

Lemma contractMaintenanceIn_singleton (s s' : State) (p : ptr)
    (del : list ContractID) :
  maintainContract s p [] = Ok (s', del) →
  contractMaintenanceIn [p] s = Ok (deleteContracts del s').
Proof. intros Hm. unfold contractMaintenanceIn. simpl. rewrite Hm. reflexivity. Qed.

(** C7: the scenario of section 8.  A contract with Start=10, End=20,
    ChallengeFrequency=5, Tolerance=1, ContractFund=100,
    ValidProofPayout=10 and MissedProofPayout=20, with all its funds, no
    failure and the window not satisfied, is the only open contract.  One
    pass at height 15 creates the missed-proof output of value 20, leaves
    FundsRemaining=80 and Failures=1 in the record, and in the same pass
    terminates the contract: it then creates the termination output of
    value 80 to [MissedProofAddress], records both events and removes the
    open-contract entry. *)
Theorem maintenance_scenario (s : State) (id : ContractID) (p : ptr)
    (root : Hash) (size : Z) (va ma : CoinAddress) (oidM : OutputID)
    (visit : list ptr) :
  let fc := mkFileContract 100 root size 10 20 5 1 10 va 20 ma in
  let oidT := ContractTerminationOutputID fc id true in
  Height s = 15 →
  OpenContracts s = {[id := p]} →
  objects s !! p = Some (mkOpenContract fc id 100 0 false) →
  StorageProofOutputID fc id 15 false = (oidM, None) →
  inRange BlockHeight 5 → inRange Currency 80 → inRange Counter 1 →
  rangeOrder s visit →
  ∃ s', contractMaintenanceIn visit s = Ok s'
    ∧ UnspentOutputs s' =
        <[oidT := mkOutput 80 ma]> (<[oidM := mkOutput 20 ma]> (UnspentOutputs s))
    ∧ UnspentOutputs s' !! oidT = Some (mkOutput 80 ma)
    ∧ (oidM ≠ oidT → UnspentOutputs s' !! oidM = Some (mkOutput 20 ma))
    ∧ objects s' !! p = Some (mkOpenContract fc id 80 1 false)
    ∧ OpenContracts s' = ∅
    ∧ MissedStorageProofs (currentBlockNode s') =
        MissedStorageProofs (currentBlockNode s) ++ [mkMissedStorageProof oidM id]
    ∧ ContractTerminations (currentBlockNode s') =
        ContractTerminations (currentBlockNode s) ++ [p].
Proof.
  intros fc oidT Hh Hopen Ho Hid HrH HrC HrF Hvisit.
  rewrite (rangeOrder_singleton _ _ _ _ Hopen Hvisit).
  assert (Hw : windowCheck s p =
    Ok (mkState 15
          (<[p := mkOpenContract fc id 80 1 false]> (objects s))
          (OpenContracts s)
          (<[oidM := mkOutput 20 ma]> (UnspentOutputs s))
          (CurrentPath s)
          (mkBlockNode
             (MissedStorageProofs (currentBlockNode s)
                ++ [mkMissedStorageProof oidM id])
             (ContractTerminations (currentBlockNode s))))).
  { rewrite (windowCheck_missed s p _ oidM Ho); simpl; rewrite ?Hh; try done.
    - change (payoutOf 100 20) with 20. change (100 - 20) with 80.
      change (0 + 1) with 1.
      by rewrite (wrap_inRange _ _ HrC), (wrap_inRange _ _ HrF).
    - change (15 - 10) with 5. by rewrite (wrap_inRange _ _ HrH). }
  eexists. split.
  { apply contractMaintenanceIn_singleton.
    unfold maintainContract. rewrite Hw. simpl.
    rewrite (terminationCheck_eq _ _ (mkOpenContract fc id 80 1 false))
      by (simpl; apply lookup_insert_eq).
    reflexivity. }
  simpl. repeat split.
  - apply lookup_insert_eq.
  - intros Hne. rewrite lookup_insert_ne by done. apply lookup_insert_eq.
  - apply lookup_insert_eq.
  - rewrite Hopen. apply delete_singleton_eq.
Qed.

End SingleContract.

(** ** Inversion *)

Section Inversion.
Context `{Externals}.

(** A property kept by the body of a loop is kept by the loop. *)
Lemma forEach_invariant {A : Type} (body : State → A → result State)
    (P : State → Prop) :
  (∀ s x s', body s x = Ok s' → P s → P s') →
  ∀ l s s', forEach body l s = Ok s' → P s → P s'.
Proof.
  intros Hbody. induction l as [|x l IH]; simpl; intros s s' Hrun HP.
  - by injection Hrun as <-.
  - destruct (body s x) as [s1|] eqn:Hb; [|discriminate]. simpl in Hrun.
    eapply IH; [exact Hrun|]. by eapply Hbody.
Qed.

Lemma reopenContract_Ok (s : State) (p : ptr) (oc : OpenContract) :
  objects s !! p = Some oc →
  reopenContract s p =
    Ok (mkState (Height s) (objects s)
          (<[oc_ContractID oc := p]> (OpenContracts s))
          (delete (ContractTerminationOutputID (oc_FileContract oc)
                     (oc_ContractID oc)
                     (Failures oc =? Tolerance (oc_FileContract oc)))
                  (UnspentOutputs s))
          (CurrentPath s) (currentBlockNode s)).
Proof. intros Ho. unfold reopenContract, deref. rewrite Ho. reflexivity. Qed.

Lemma reopenContract_inv (s s' : State) (p : ptr) :
  reopenContract s p = Ok s' →
  ∃ oc, objects s !! p = Some oc ∧ reopenContract s p = Ok s'.
Proof.
  intros Hr. destruct (objects s !! p) as [oc|] eqn:Ho; [eauto|].
  unfold reopenContract, deref in Hr. rewrite Ho in Hr. discriminate.
Qed.

Lemma reverseMissedProof_Ok (s : State) (mp : MissedStorageProof) (q : ptr)
    (oc : OpenContract) :
  OpenContracts s !! msp_ContractID mp = Some q →
  objects s !! q = Some oc →
  reverseMissedProof s mp =
    Ok (mkState (Height s)
          (<[q := mkOpenContract (oc_FileContract oc) (oc_ContractID oc)
                    (wrap Currency
                       (FundsRemaining oc + outputValue s (msp_OutputID mp)))
                    (wrap Counter (Failures oc - 1)) (WindowSatisfied oc)]>
             (objects s))
          (OpenContracts s)
          (delete (msp_OutputID mp) (UnspentOutputs s))
          (CurrentPath s) (currentBlockNode s)).
Proof.
  intros Hq Ho. unfold reverseMissedProof. rewrite Hq.
  rewrite (store_Ok _ _ _ _ Ho). simpl. rewrite Hq.
  unfold store, deref. simpl. rewrite lookup_insert_eq. simpl.
  unfold setObject. simpl. rewrite insert_insert_eq. reflexivity.
Qed.

Lemma reverseMissedProof_inv (s s' : State) (mp : MissedStorageProof) :
  reverseMissedProof s mp = Ok s' →
  ∃ q oc, OpenContracts s !! msp_ContractID mp = Some q
          ∧ objects s !! q = Some oc.
Proof.
  unfold reverseMissedProof.
  destruct (store s _ _) as [s1|] eqn:H1; [|discriminate].
  apply store_inv in H1 as (q & oc & Hq & Ho & _). eauto.
Qed.

(** Neither loop of the inversion writes to the node of the block. *)
Lemma inverseContractMaintenance_node (s s' : State) :
  inverseContractMaintenance s = Ok s' →
  currentBlockNode s' = currentBlockNode s.
Proof.
  unfold inverseContractMaintenance.
  destruct (forEach reopenContract _ s) as [s1|] eqn:H1; [|discriminate].
  simpl. intros H2.
  assert (E1 : currentBlockNode s1 = currentBlockNode s).
  { eapply (forEach_invariant reopenContract
              (λ t, currentBlockNode t = currentBlockNode s)); [|exact H1|done].
    intros t p t' Ht Hn. apply reopenContract_inv in Ht as (oc & Ho & Ht).
    rewrite (reopenContract_Ok _ _ _ Ho) in Ht. by injection Ht as <-. }
  eapply (forEach_invariant reverseMissedProof
            (λ t, currentBlockNode t = currentBlockNode s)); [|exact H2|done].
  intros t mp t' Ht Hn.
  destruct (reverseMissedProof_inv _ _ _ Ht) as (q & oc & Hq & Ho).
  rewrite (reverseMissedProof_Ok _ _ _ _ Hq Ho) in Ht. by injection Ht as <-.
Qed.

(** The first loop completes when the recorded pointers have objects; it
    leaves the objects alone and only adds entries to the map. *)
Lemma forEach_reopenContract (l : list ptr) (s : State) :
  (∀ p, p ∈ l → is_Some (objects s !! p)) →
  ∃ s1, forEach reopenContract l s = Ok s1
    ∧ objects s1 = objects s
    ∧ (∀ id, is_Some (OpenContracts s !! id) → is_Some (OpenContracts s1 !! id))
    ∧ (∀ p oc, p ∈ l → objects s !! p = Some oc →
         is_Some (OpenContracts s1 !! oc_ContractID oc))
    ∧ (∀ id q, OpenContracts s1 !! id = Some q →
         OpenContracts s !! id = Some q ∨ q ∈ l).
Proof.
  revert s. induction l as [|p l IH]; intros s Hobj.
  - exists s. split; [done|]. split; [done|]. split; [done|].
    split; [|by left]. intros p oc Hp. by apply elem_of_nil in Hp.
  - destruct (Hobj p ltac:(left)) as [oc Ho].
    simpl. rewrite (reopenContract_Ok _ _ _ Ho). simpl.
    set (s0 := mkState _ _ _ _ _ _).
    destruct (IH s0) as (s1 & Hrun & Hobjs & Hkeep & Hnew & Hfrom).
    { intros p' Hp'. simpl. apply Hobj. by right. }
    exists s1. split; [done|]. split; [by rewrite Hobjs|].
    split; [|split].
    + intros id Hid. apply Hkeep. simpl.
      destruct (decide (oc_ContractID oc = id)) as [->|Hne].
      * rewrite lookup_insert_eq. eauto.
      * by rewrite lookup_insert_ne.
    + intros p' oc' Hp' Ho'. apply elem_of_cons in Hp' as [->|Hp'].
      * apply Hkeep. simpl. rewrite Ho in Ho'. injection Ho' as <-.
        rewrite lookup_insert_eq. eauto.
      * by apply (Hnew p').
    + intros id q Hq. destruct (Hfrom id q Hq) as [Hq'|Hq'].
      * simpl in Hq'.
        destruct (decide (oc_ContractID oc = id)) as [E|Hne].
        -- rewrite E, lookup_insert_eq in Hq'. injection Hq' as <-.
           right. by left.
        -- rewrite lookup_insert_ne in Hq' by done. by left.
      * right. by right.
Qed.

(** The second loop completes when the contracts of the records are open
    and the pointers of the map have objects. *)
Lemma forEach_reverseMissedProof (l : list MissedStorageProof) (s : State) :
  (∀ mp, mp ∈ l → is_Some (OpenContracts s !! msp_ContractID mp)) →
  (∀ id q, OpenContracts s !! id = Some q → is_Some (objects s !! q)) →
  ∃ s', forEach reverseMissedProof l s = Ok s'.
Proof.
  revert s. induction l as [|mp l IH]; intros s Hopen Hobj.
  - by exists s.
  - destruct (Hopen mp ltac:(left)) as [q Hq].
    destruct (Hobj _ _ Hq) as [oc Ho].
    simpl. rewrite (reverseMissedProof_Ok _ _ _ _ Hq Ho). simpl.
    apply IH.
    + intros mp' Hmp'. simpl. apply Hopen. by right.
    + intros id q' Hq'. simpl in *.
      destruct (decide (q = q')) as [->|Hne].
      * rewrite lookup_insert_eq. eauto.
      * rewrite lookup_insert_ne by done. by eapply Hobj.
Qed.

(** C9, as the code has it: the inversion routine reads the two lists of
    audit records of the block and clears neither; when the records
    resolve it completes, and the lists are then still attached to the
    node of the block, as they were. *)
Theorem inverseContractMaintenance_keeps_records (s : State) :
  auditResolves s →
  ∃ s', inverseContractMaintenance s = Ok s'
    ∧ MissedStorageProofs (currentBlockNode s')
        = MissedStorageProofs (currentBlockNode s)
    ∧ ContractTerminations (currentBlockNode s')
        = ContractTerminations (currentBlockNode s).
Proof.
  intros (Hct & Hobj & Hmsp).
  destruct (forEach_reopenContract _ s Hct)
    as (s1 & H1 & Hobjs & Hkeep & Hnew & Hfrom).
  assert (E1 : currentBlockNode s1 = currentBlockNode s).
  { eapply (forEach_invariant reopenContract
              (λ t, currentBlockNode t = currentBlockNode s)); [|exact H1|done].
    intros t p t' Ht Hn. apply reopenContract_inv in Ht as (oc & Ho & Ht).
    rewrite (reopenContract_Ok _ _ _ Ho) in Ht. by injection Ht as <-. }
  destruct (forEach_reverseMissedProof
              (MissedStorageProofs (currentBlockNode s1)) s1) as [s' H2].
  { rewrite E1. intros mp Hmp. destruct (Hmsp mp Hmp) as [Hin|(p & oc & Hp & Ho & <-)].
    - by apply Hkeep.
    - by apply (Hnew p). }
  { intros id q Hq. rewrite Hobjs. destruct (Hfrom id q Hq) as [Hq'|Hq'].
    - by eapply Hobj.
    - by apply Hct. }
  assert (Hinv : inverseContractMaintenance s = Ok s').
  { unfold inverseContractMaintenance. rewrite H1. exact H2. }
  exists s'. split; [exact Hinv|].
  by rewrite (inverseContractMaintenance_node _ _ Hinv).
Qed.

(** C1, at an input on which the inversion misses a write of maintenance:
    a single open contract stands at a window boundary of a new block with
    its window satisfied and nothing to terminate it.  Maintenance
    completes and clears [WindowSatisfied]; the inversion completes and
    leaves the flag cleared, so the contract is not the one it was. *)
Theorem maintenance_inverse_window (s : State) (id : ContractID) (p : ptr)
    (oc : OpenContract) (visit : list ptr) :
  OpenContracts s = {[id := p]} →
  objects s !! p = Some oc →
  currentBlockNode s = mkBlockNode [] [] →
  WindowSatisfied oc = true →
  ChallengeFrequency (oc_FileContract oc) ≠ 0 →
  Z.rem (wrap BlockHeight (Height s - Start (oc_FileContract oc)))
        (ChallengeFrequency (oc_FileContract oc)) = 0 →
  Start (oc_FileContract oc) < Height s →
  terminates s oc = false →
  rangeOrder s visit →
  ∃ s1 s2,
    contractMaintenanceIn visit s = Ok s1
    ∧ inverseContractMaintenance s1 = Ok s2
    ∧ openContractOf s id = Some oc
    ∧ openContractOf s2 id = Some (setWindowSatisfied false oc)
    ∧ openContractOf s2 id ≠ openContractOf s id.
Proof.
  intros Hopen Ho Hnode Hws Hcf Hrem Hgt Hterm Hvisit.
  rewrite (rangeOrder_singleton _ _ _ _ Hopen Hvisit).
  assert (Hm : maintainContract s p [] =
               Ok (setObject p (setWindowSatisfied false oc) s, [])).
  { unfold maintainContract.
    rewrite (windowCheck_satisfied _ _ _ Ho Hcf Hrem Hgt Hws). simpl.
    rewrite (terminationCheck_eq _ _ (setWindowSatisfied false oc))
      by (simpl; apply lookup_insert_eq).
    change (terminates _ (setWindowSatisfied false oc)) with (terminates s oc).
    by rewrite Hterm. }
  assert (Hbefore : openContractOf s id = Some oc).
  { apply openContractOf_Some. exists p. rewrite Hopen.
    by rewrite lookup_singleton_eq. }
  assert (Hafter : openContractOf
                     (deleteContracts [] (setObject p (setWindowSatisfied false oc) s))
                     id = Some (setWindowSatisfied false oc)).
  { apply openContractOf_Some. exists p. simpl. rewrite Hopen.
    split; [apply lookup_singleton_eq|apply lookup_insert_eq]. }
  eexists. eexists.
  split; [exact (contractMaintenanceIn_singleton _ _ _ _ Hm)|].
  split.
  { unfold inverseContractMaintenance. simpl. rewrite Hnode. simpl.
    rewrite Hnode. reflexivity. }
  split; [exact Hbefore|]. split; [exact Hafter|].
  rewrite Hafter, Hbefore. intros [= E].
  apply (f_equal WindowSatisfied) in E. simpl in E. congruence.
Qed.

(** Without audit records the inversion changes nothing. *)
Lemma inverseContractMaintenance_no_record (s : State) :
  currentBlockNode s = mkBlockNode [] [] →
  inverseContractMaintenance s = Ok s.
Proof.
  intros Hn. unfold inverseContractMaintenance. rewrite Hn. simpl.
  rewrite Hn. reflexivity.
Qed.

(** What maintenance and then inversion leave of a ledger with a single open
    contract, at the start of a block: whichever way the pass goes (no
    boundary, a satisfied or a missed window, a termination with or without
    funds), the open-contract map, the unspent outputs and the funds and
    failures of the contract are those before the pass.  The output IDs
    of the contract are new and the missed-proof one is none of the
    termination ones.  Only [WindowSatisfied] may differ, and then it was
    set and is cleared. *)
Theorem single_contract_round_trip (s s1 : State) (id : ContractID) (p : ptr)
    (oc : OpenContract) (visit : list ptr) :
  OpenContracts s = {[id := p]} →
  objects s !! p = Some oc →
  oc_ContractID oc = id →
  currentBlockNode s = mkBlockNode [] [] →
  inRange Currency (FundsRemaining oc) →
  inRange Counter (Failures oc) →
  (∀ oid, writesOutput (Height s) oc oid → UnspentOutputs s !! oid = None) →
  (∀ b, ContractTerminationOutputID (oc_FileContract oc) id b
        ≠ (StorageProofOutputID (oc_FileContract oc) id (Height s) false).1) →
  rangeOrder s visit →
  contractMaintenanceIn visit s = Ok s1 →
  ∃ s2 oc2,
    inverseContractMaintenance s1 = Ok s2
    ∧ OpenContracts s2 = OpenContracts s
    ∧ UnspentOutputs s2 = UnspentOutputs s
    ∧ objects s2 !! p = Some oc2
    ∧ oc_FileContract oc2 = oc_FileContract oc
    ∧ oc_ContractID oc2 = oc_ContractID oc
    ∧ FundsRemaining oc2 = FundsRemaining oc
    ∧ Failures oc2 = Failures oc
    ∧ (WindowSatisfied oc2 = WindowSatisfied oc
       ∨ (WindowSatisfied oc = true ∧ WindowSatisfied oc2 = false)).
Proof.
  intros Hopen Ho Hid Hnode HrC HrF Hfresh Hdist Hvisit Hrun.
  rewrite (rangeOrder_singleton _ _ _ _ Hopen Hvisit) in Hrun.
  unfold contractMaintenanceIn in Hrun. simpl in Hrun.
  destruct (maintainContract s p []) as [[sm delm]|] eqn:Hm; [|discriminate].
  simpl in Hrun. injection Hrun as <-.
  apply maintainContract_inv in Hm as (sw & Hw & Hc).
  assert (HfreshT : ∀ b, UnspentOutputs s !!
            ContractTerminationOutputID (oc_FileContract oc) (oc_ContractID oc) b = None).
  { intros b. apply Hfresh. right. eauto. }
  destruct (windowCheck_cases _ _ _ _ Ho Hw)
    as [-> | [(Hws & ->) | (Hws & oid & Hoid & Hw')]].
  - (* no boundary *)
    rewrite (terminationCheck_eq _ _ _ _ Ho) in Hc.
    destruct (terminates s oc) eqn:Ht; injection Hc as <- <-.
    + unfold inverseContractMaintenance. simpl. rewrite Hnode. simpl.
      rewrite (reopenContract_Ok _ _ oc) by done. simpl. rewrite ?Hnode. simpl.
      eexists. exists oc. split; [reflexivity|]. simpl.
      rewrite Hopen, Hid, delete_singleton_eq, insert_empty.
      split; [done|]. split; [|by repeat split; auto].
      destruct (FundsRemaining oc =? 0).
      * apply delete_id. rewrite <- Hid. apply HfreshT.
      * apply delete_insert_id. rewrite <- Hid. apply HfreshT.
    + eexists. exists oc.
      split; [apply inverseContractMaintenance_no_record; exact Hnode|].
      by repeat split; auto.
  - (* the boundary of a satisfied window *)
    set (oc1 := setWindowSatisfied false oc) in *.
    assert (Ho1 : objects (setObject p oc1 s) !! p = Some oc1)
      by (simpl; apply lookup_insert_eq).
    rewrite (terminationCheck_eq _ _ _ _ Ho1) in Hc.
    destruct (terminates (setObject p oc1 s) oc1) eqn:Ht; injection Hc as <- <-.
    + unfold inverseContractMaintenance. simpl. rewrite Hnode. simpl.
      rewrite (reopenContract_Ok _ _ oc1) by (simpl; apply lookup_insert_eq).
      simpl. rewrite ?Hnode. simpl.
      eexists. exists oc1. split; [reflexivity|]. simpl.
      rewrite Hopen, Hid, delete_singleton_eq, insert_empty.
      split; [done|]. split; [|rewrite lookup_insert_eq; by repeat split; auto].
      destruct (FundsRemaining oc =? 0).
      * apply delete_id. rewrite <- Hid. apply HfreshT.
      * apply delete_insert_id. rewrite <- Hid. apply HfreshT.
    + eexists. exists oc1.
      split; [apply inverseContractMaintenance_no_record; exact Hnode|].
      simpl. rewrite lookup_insert_eq. by repeat split; auto.
  - (* the boundary of a missed window *)
    rewrite Hw' in Hw. injection Hw as <-.
    set (payout := payoutOf (FundsRemaining oc)
                     (MissedProofPayout (oc_FileContract oc))) in *.
    set (oc1 := mkOpenContract (oc_FileContract oc) (oc_ContractID oc)
                  (wrap Currency (FundsRemaining oc - payout))
                  (wrap Counter (Failures oc + 1)) false) in *.
    assert (HoidM : oid = (StorageProofOutputID (oc_FileContract oc) id
                             (Height s) false).1) by (by rewrite <- Hid, Hoid).
    assert (HfreshM : UnspentOutputs s !! oid = None).
    { apply Hfresh. left. by rewrite Hoid. }
    assert (HneT : ∀ b, ContractTerminationOutputID (oc_FileContract oc)
                          (oc_ContractID oc) b ≠ oid).
    { intros b. rewrite HoidM, Hid. apply Hdist. }
    rewrite terminationCheck_eq with (oc := oc1) in Hc
      by (simpl; apply lookup_insert_eq).
    match type of Hc with
    | Ok (if terminates ?st oc1 then _ else _) = _ =>
        destruct (terminates st oc1) eqn:Ht
    end; injection Hc as <- <-.
    + unfold inverseContractMaintenance. simpl. rewrite Hnode. simpl.
      rewrite (reopenContract_Ok _ _ oc1) by (simpl; apply lookup_insert_eq).
      simpl. rewrite ?Hnode. simpl.
      match goal with
      | |- context [reverseMissedProof ?st ?mp] =>
          rewrite (reverseMissedProof_Ok st mp p oc1)
            by (simpl; rewrite ?Hopen, ?Hid, ?delete_singleton_eq;
                apply lookup_insert_eq)
      end.
      simpl.
      set (b := wrap Counter (Failures oc + 1) =? Tolerance (oc_FileContract oc)).
      set (om := mkOutput payout (MissedProofAddress (oc_FileContract oc))).
      assert (HnT : <[oid := om]> (UnspentOutputs s) !!
                ContractTerminationOutputID (oc_FileContract oc)
                  (oc_ContractID oc) b = None).
      { rewrite lookup_insert_ne; [apply HfreshT|]. intros E. by apply (HneT b). }
      unfold outputValue. simpl.
      destruct (wrap Currency (FundsRemaining oc - payout) =? 0).
      * rewrite (delete_id _ _ HnT), lookup_insert_eq. simpl.
        rewrite (delete_insert_id _ _ _ HfreshM).
        eexists. eexists. split; [reflexivity|]. simpl.
        rewrite Hopen, Hid, delete_singleton_eq, insert_empty.
        split; [done|]. split; [done|]. rewrite lookup_insert_eq.
        split; [reflexivity|]. simpl.
        rewrite (wrap_sub_add _ _ _ HrC), (wrap_add_sub _ _ _ HrF), Hws.
        by repeat split; auto.
      * rewrite (delete_insert_id _ _ _ HnT), lookup_insert_eq. simpl.
        rewrite (delete_insert_id _ _ _ HfreshM).
        eexists. eexists. split; [reflexivity|]. simpl.
        rewrite Hopen, Hid, delete_singleton_eq, insert_empty.
        split; [done|]. split; [done|]. rewrite lookup_insert_eq.
        split; [reflexivity|]. simpl.
        rewrite (wrap_sub_add _ _ _ HrC), (wrap_add_sub _ _ _ HrF), Hws.
        by repeat split; auto.
    + unfold inverseContractMaintenance. simpl. rewrite Hnode. simpl.
      match goal with
      | |- context [reverseMissedProof ?st ?mp] =>
          rewrite (reverseMissedProof_Ok st mp p oc1)
            by (simpl; rewrite ?Hopen, ?Hid; try apply lookup_singleton_eq;
                apply lookup_insert_eq)
      end.
      unfold outputValue. simpl. rewrite lookup_insert_eq. simpl.
      rewrite (delete_insert_id _ _ _ HfreshM).
      eexists. eexists. split; [reflexivity|]. simpl.
      split; [done|]. split; [done|]. rewrite lookup_insert_eq.
      split; [reflexivity|]. simpl.
      rewrite (wrap_sub_add _ _ _ HrC), (wrap_add_sub _ _ _ HrF), Hws.
      by repeat split; auto.
Qed.

End Inversion.

(** ** Validation of storage proofs *)

Section ProofValidation.
Context `{Externals}.

(** A proof for a contract whose window is satisfied is turned down before
    the proof is looked at. *)
Lemma validProof_already_satisfied (s : State) (sp : StorageProof)
    (oc : OpenContract) :
  openContractOf s (sp_ContractID sp) = Some oc →
  WindowSatisfied oc = true →
  validProof s sp =
    Ok (Some "storage proof has already been completed for this contract"%string).
Proof.
  intros Hoc Hws. apply openContractOf_Some in Hoc as (q & Hq & Ho).
  unfold validProof, deref. rewrite Hq, Ho. simpl. by rewrite Hws.
Qed.

(** What [validProof] does once the contract is found with its window not
    satisfied. *)
Lemma validProof_unsatisfied (s : State) (sp : StorageProof) (oc : OpenContract) :
  openContractOf s (sp_ContractID sp) = Some oc →
  WindowSatisfied oc = false →
  validProof s sp =
    let '(numSegments, err) :=
      CalculateSegments (wrap int64 (FileSize (oc_FileContract oc))) in
    match err with
    | Some e => Ok (Some e)
    | None =>
        proofIndex ← currentProofIndex s sp;
        if negb (VerifyReaderProof (Segment sp) (HashSet sp) numSegments
                   proofIndex (FileMerkleRoot (oc_FileContract oc)))
        then Ok (Some "provided storage proof is invalid"%string)
        else Ok None
    end.
Proof.
  intros Hoc Hws. apply openContractOf_Some in Hoc as (q & Hq & Ho).
  unfold validProof, deref. rewrite Hq, Ho. simpl. by rewrite Hws.
Qed.

(** [validProof] accepts a proof exactly when the contract is open, its
    window is not satisfied, the segment count of the file is computed
    without error, the index derivation returns, and the proof verifies
    against that index and the Merkle root of the contract. *)
Theorem validProof_accepts_iff (s : State) (sp : StorageProof) :
  validProof s sp = Ok None ↔
  ∃ oc numSegments proofIndex,
    openContractOf s (sp_ContractID sp) = Some oc
    ∧ WindowSatisfied oc = false
    ∧ CalculateSegments (wrap int64 (FileSize (oc_FileContract oc)))
        = (numSegments, None)
    ∧ currentProofIndex s sp = Ok proofIndex
    ∧ VerifyReaderProof (Segment sp) (HashSet sp) numSegments proofIndex
        (FileMerkleRoot (oc_FileContract oc)) = true.
Proof.
  split.
  - intros Hv. destruct (validProof_open _ _ Hv) as (oc & Hoc & Hws).
    rewrite (validProof_unsatisfied _ _ _ Hoc Hws) in Hv.
    destruct (CalculateSegments _) as [n [e|]] eqn:Hn; [discriminate|].
    destruct (currentProofIndex s sp) as [i|] eqn:Hi; [|discriminate].
    simpl in Hv.
    destruct (VerifyReaderProof _ _ _ _ _) eqn:Hver; [|discriminate].
    exists oc, n, i. by repeat split.
  - intros (oc & n & i & Hoc & Hws & Hn & Hi & Hver).
    rewrite (validProof_unsatisfied _ _ _ Hoc Hws), Hn, Hi. simpl.
    by rewrite Hver.
Qed.

(** The validation of a proof for a contract on an empty file does not
    return: once the segment count of size 0 is computed without error and
    the contract has a window, the index derivation divides by zero inside
    [validProof]. *)
Theorem validProof_empty_file (s : State) (sp : StorageProof) (oc : OpenContract)
    (numSegments w : Z) :
  openContractOf s (sp_ContractID sp) = Some oc →
  WindowSatisfied oc = false →
  FileSize (oc_FileContract oc) = 0 →
  CalculateSegments (wrap int64 0) = (numSegments, None) →
  WindowIndex (oc_FileContract oc) (Height s) = (w, None) →
  validProof s sp = Panic DivideByZero.
Proof.
  intros Hoc Hws Hsize Hn Hw.
  rewrite (validProof_unsatisfied _ _ _ Hoc Hws), Hsize, Hn.
  apply deref_openContractOf in Hoc.
  unfold currentProofIndex. rewrite Hoc. simpl. rewrite Hw, Hsize.
  reflexivity.
Qed.

(** Outside every challenge window the proof is checked all the same, and
    against segment 0: [validProof] accepts exactly the proofs that verify
    for index 0. *)
Theorem validProof_no_window (s : State) (sp : StorageProof) (oc : OpenContract)
    (numSegments w : Z) (e : string) :
  openContractOf s (sp_ContractID sp) = Some oc →
  WindowSatisfied oc = false →
  CalculateSegments (wrap int64 (FileSize (oc_FileContract oc)))
    = (numSegments, None) →
  WindowIndex (oc_FileContract oc) (Height s) = (w, Some e) →
  validProof s sp =
    Ok (if VerifyReaderProof (Segment sp) (HashSet sp) numSegments 0
             (FileMerkleRoot (oc_FileContract oc))
        then None
        else Some "provided storage proof is invalid"%string).
Proof.
  intros Hoc Hws Hn Hw.
  rewrite (validProof_unsatisfied _ _ _ Hoc Hws), Hn.
  apply deref_openContractOf in Hoc.
  unfold currentProofIndex. rewrite Hoc. simpl. rewrite Hw. simpl.
  by destruct (VerifyReaderProof _ _ _ _ _).
Qed.

(** For a contract ID that is not open, [validProof] returns its error,
    while the index derivation and the proof application, which do not test
    for the contract, dereference a nil pointer. *)
Theorem unknown_contract (s : State) (sp : StorageProof) :
  OpenContracts s !! sp_ContractID sp = None →
  validProof s sp = Ok (Some "unrecognized contract id in storage proof"%string)
  ∧ currentProofIndex s sp = Panic NilDereference
  ∧ applyStorageProof s sp = Panic NilDereference.
Proof.
  intros Hq. unfold validProof, currentProofIndex, applyStorageProof.
  rewrite Hq. done.
Qed.

End ProofValidation.

(** ** Application of storage proofs *)

Section ProofApplication.
Context `{Externals}.

(** The ways [applyStorageProof] returns: the contract is open and the
    output ID is derived. *)
Lemma applyStorageProof_inv (s s' : State) (sp : StorageProof) :
  applyStorageProof s sp = Ok s' →
  ∃ q oc oid,
    OpenContracts s !! sp_ContractID sp = Some q
    ∧ objects s !! q = Some oc
    ∧ StorageProofOutputID (oc_FileContract oc) (oc_ContractID oc) (Height s) true
        = (oid, None).
Proof.
  intros Ha.
  destruct (OpenContracts s !! sp_ContractID sp) as [q|] eqn:Hq;
    [|unfold applyStorageProof in Ha; rewrite Hq in Ha; discriminate].
  destruct (objects s !! q) as [oc|] eqn:Ho;
    [|unfold applyStorageProof, deref in Ha; rewrite Hq, Ho in Ha; discriminate].
  destruct (StorageProofOutputID (oc_FileContract oc) (oc_ContractID oc)
              (Height s) true) as [oid [e|]] eqn:Hid.
  - rewrite (applyStorageProof_Panic s sp oc oid e) in Ha; [discriminate| |done].
    apply openContractOf_Some. eauto.
  - exists q, oc, oid. done.
Qed.

(** [applyStorageProof] writes one record and one output: the height, the
    open-contract map, the chain and the audit records of the block are as
    before, and so are the records behind every other pointer and the
    outputs under every other ID. *)
Theorem applyStorageProof_frame (s s' : State) (sp : StorageProof) :
  applyStorageProof s sp = Ok s' →
  ∃ q oc oid,
    OpenContracts s !! sp_ContractID sp = Some q
    ∧ objects s !! q = Some oc
    ∧ StorageProofOutputID (oc_FileContract oc) (oc_ContractID oc) (Height s) true
        = (oid, None)
    ∧ Height s' = Height s
    ∧ OpenContracts s' = OpenContracts s
    ∧ CurrentPath s' = CurrentPath s
    ∧ currentBlockNode s' = currentBlockNode s
    ∧ (∀ q', q' ≠ q → objects s' !! q' = objects s !! q')
    ∧ (∀ oid', oid' ≠ oid → UnspentOutputs s' !! oid' = UnspentOutputs s !! oid').
Proof.
  intros Ha. destruct (applyStorageProof_inv _ _ _ Ha) as (q & oc & oid & Hq & Ho & Hid).
  rewrite (applyStorageProof_Ok _ _ _ _ _ Hq Ho Hid) in Ha. injection Ha as <-.
  exists q, oc, oid. simpl. repeat split; try done.
  - intros q' Hne. by apply lookup_insert_ne.
  - intros oid' Hne. by apply lookup_insert_ne.
Qed.

(** A proof cannot be submitted twice: after [applyStorageProof] the
    validation of a proof for the same contract fails, the window being
    satisfied, whatever the proof. *)
Theorem validProof_after_apply (s s' : State) (sp sp' : StorageProof) :
  applyStorageProof s sp = Ok s' →
  sp_ContractID sp' = sp_ContractID sp →
  validProof s' sp' =
    Ok (Some "storage proof has already been completed for this contract"%string).
Proof.
  intros Ha Hsame.
  destruct (applyStorageProof_inv _ _ _ Ha) as (q & oc & oid & Hq & Ho & Hid).
  rewrite (applyStorageProof_Ok _ _ _ _ _ Hq Ho Hid) in Ha. injection Ha as <-.
  eapply validProof_already_satisfied.
  - apply openContractOf_Some. exists q. simpl. rewrite Hsame.
    split; [exact Hq|]. apply lookup_insert_eq.
  - reflexivity.
Qed.

(** [applyStorageProof] does not look at [WindowSatisfied]: applied twice at
    one height it pays twice out of the funds, and the second output takes
    the place of the first under the one output ID, so that the first
    payout is in no output. *)
Theorem applyStorageProof_twice (s : State) (sp : StorageProof) (q : ptr)
    (oc : OpenContract) (oid : OutputID) :
  OpenContracts s !! sp_ContractID sp = Some q →
  objects s !! q = Some oc →
  StorageProofOutputID (oc_FileContract oc) (oc_ContractID oc) (Height s) true
    = (oid, None) →
  0 ≤ FundsRemaining oc ≤ maxInt Currency →
  0 ≤ ValidProofPayout (oc_FileContract oc) →
  let v := ValidProofPayout (oc_FileContract oc) in
  let first := Z.min (FundsRemaining oc) v in
  let second := Z.min (FundsRemaining oc - first) v in
  ∃ s1 s2 oc2,
    applyStorageProof s sp = Ok s1
    ∧ applyStorageProof s1 sp = Ok s2
    ∧ UnspentOutputs s2 !! oid
        = Some (mkOutput second (ValidProofAddress (oc_FileContract oc)))
    ∧ (∀ oid', oid' ≠ oid → UnspentOutputs s2 !! oid' = UnspentOutputs s !! oid')
    ∧ objects s2 !! q = Some oc2
    ∧ FundsRemaining oc2 = FundsRemaining oc - first - second.
Proof.
  intros Hq Ho Hid Hf Hv v first second.
  pose proof (applyStorageProof_Ok _ _ _ _ _ Hq Ho Hid) as H1. simpl in H1.
  rewrite (funds_after_payout _ _ Hf Hv) in H1. fold v first in H1.
  rewrite payoutOf_min in H1. fold v first in H1.
  eexists. eexists. eexists. split; [exact H1|].
  split.
  { rewrite (applyStorageProof_Ok _ sp q
               (mkOpenContract (oc_FileContract oc) (oc_ContractID oc)
                  (FundsRemaining oc - first) (Failures oc) true) oid);
      [reflexivity|exact Hq|simpl; apply lookup_insert_eq|exact Hid]. }
  simpl. rewrite payoutOf_min. fold v second.
  split; [apply lookup_insert_eq|].
  split; [intros oid' Hne; by rewrite !lookup_insert_ne|].
  split; [apply lookup_insert_eq|]. simpl.
  apply wrap_inRange. unfold inRange. pose proof (minInt_nonpos Currency).
  subst first second. lia.
Qed.

End ProofApplication.

(** ** Formation, further *)

Section FormationFurther.
Context `{Externals}.

(** The whole of the validity check: a contract is accepted exactly when
    its fund is not negative, its start is not before the current height
    and its end is after its start; no other field of the contract is
    looked at. *)
Theorem validContract_criterion (s : State) (c : FileContract) :
  (validContract s c = None ↔
   0 ≤ ContractFund c ∧ Height s ≤ Start c ∧ Start c < End_ c)
  ∧ ∀ c', ContractFund c' = ContractFund c → Start c' = Start c →
          End_ c' = End_ c → validContract s c' = validContract s c.
Proof.
  split; [apply validContract_None|].
  intros c' Hf Hs He. unfold validContract. by rewrite Hf, Hs, He.
Qed.

(** [addContract] allocates: the entry of [id] points to a record that was
    not there, every record of the state stays as it is behind its pointer
    (those of the termination list too), no other entry points to the new
    record, and outputs, height, chain and audit records are untouched. *)
Theorem addContract_extends (s : State) (c : FileContract) (id : ContractID) :
  ∃ p,
    OpenContracts (addContract s c id) = <[id := p]> (OpenContracts s)
    ∧ objects s !! p = None
    ∧ objects (addContract s c id) !! p
        = Some (mkOpenContract c id (ContractFund c) 0 true)
    ∧ (∀ q oc, objects s !! q = Some oc →
         objects (addContract s c id) !! q = Some oc)
    ∧ (∀ id' q, id' ≠ id → OpenContracts s !! id' = Some q →
         is_Some (objects s !! q) →
         OpenContracts (addContract s c id) !! id' = Some q ∧ q ≠ p)
    ∧ dom (OpenContracts (addContract s c id)) = {[id]} ∪ dom (OpenContracts s)
    ∧ UnspentOutputs (addContract s c id) = UnspentOutputs s
    ∧ currentBlockNode (addContract s c id) = currentBlockNode s
    ∧ Height (addContract s c id) = Height s
    ∧ CurrentPath (addContract s c id) = CurrentPath s.
Proof.
  exists (fresh (dom (objects s))). pose proof (addContract_fresh s) as Hfresh.
  unfold addContract. simpl.
  split; [done|]. split; [done|]. split; [apply lookup_insert_eq|].
  split; [|split; [|split; [apply dom_insert_L|done]]].
  - intros q oc Hq. rewrite lookup_insert_ne; [done|].
    intros <-. rewrite Hfresh in Hq. discriminate.
  - intros id' q Hne Hq [oc Ho]. rewrite lookup_insert_ne by done.
    split; [done|]. intros ->. rewrite Hfresh in Ho. discriminate.
Qed.

(** [addContract] runs no validity check, and the first window is free: for
    any contract, one [validContract] accepts or not, the record is stored
    with its window satisfied, so that every proof for it is turned down as
    already completed. *)
Theorem addContract_first_window (s : State) (c : FileContract) (id : ContractID)
    (segment : list byte) (hashSet : list Hash) :
  openContractOf (addContract s c id) id
    = Some (mkOpenContract c id (ContractFund c) 0 true)
  ∧ validProof (addContract s c id) (mkStorageProof id segment hashSet) =
      Ok (Some "storage proof has already been completed for this contract"%string).
Proof.
  split; [apply addContract_lookup|].
  eapply validProof_already_satisfied; [apply addContract_lookup|reflexivity].
Qed.

End FormationFurther.

(** ** The pass over all contracts *)

Section Pass.
Context `{Externals}.

(** What an iteration logs: it writes neither the height nor the chain, it
    appends to the two audit lists and to the list of contracts to delete,
    and a pointer it records as terminated is the one it visits. *)
Lemma maintainContract_log (s s' : State) (p : ptr) (del del' : list ContractID) :
  maintainContract s p del = Ok (s', del') →
  CurrentPath s' = CurrentPath s
  ∧ (∃ l, MissedStorageProofs (currentBlockNode s')
            = MissedStorageProofs (currentBlockNode s) ++ l)
  ∧ (∃ l, ContractTerminations (currentBlockNode s')
            = ContractTerminations (currentBlockNode s) ++ l
          ∧ ∀ q, q ∈ l → q = p)
  ∧ (∃ l, del' = del ++ l
          ∧ ∀ id, id ∈ l → ∃ oc, objects s !! p = Some oc ∧ oc_ContractID oc = id).
Proof.
  intros Hm. apply maintainContract_inv in Hm as (s1 & Hw & Hc).
  destruct (windowCheck_effect _ _ _ Hw) as (oc & oc1 & Ho & Hobj & [_ Hsame] & _).
  assert (Ho1 : objects s1 !! p = Some oc1) by (rewrite Hobj; apply lookup_insert_eq).
  assert (Hlog1 : CurrentPath s1 = CurrentPath s
            ∧ (∃ l, MissedStorageProofs (currentBlockNode s1)
                      = MissedStorageProofs (currentBlockNode s) ++ l)
            ∧ ContractTerminations (currentBlockNode s1)
                = ContractTerminations (currentBlockNode s)).
  { destruct (windowCheck_cases _ _ _ _ Ho Hw)
      as [-> | [(_ & ->) | (_ & oid & _ & Hw')]].
    - split; [done|]. split; [|done]. exists []. by rewrite app_nil_r.
    - split; [done|]. split; [|done]. exists []. by rewrite app_nil_r.
    - rewrite Hw' in Hw. injection Hw as <-. simpl. split; [done|].
      split; [|done]. eauto. }
  destruct Hlog1 as (Hpath & [lm Hmsp] & Hct).
  rewrite (terminationCheck_eq _ _ _ _ Ho1) in Hc.
  destruct (terminates s1 oc1); injection Hc as <- <-; simpl.
  - split; [done|]. split; [eauto|]. split.
    + exists [p]. rewrite Hct. split; [done|].
      intros q Hq. by apply list_elem_of_singleton in Hq.
    + exists [oc_ContractID oc1]. split; [done|].
      intros id Hid. apply list_elem_of_singleton in Hid as ->.
      exists oc. by split.
  - split; [done|]. split; [eauto|]. split.
    + exists []. rewrite app_nil_r. split; [done|]. intros q Hq.
      by apply elem_of_nil in Hq.
    + exists []. rewrite app_nil_r. split; [done|]. intros id Hid.
      by apply elem_of_nil in Hid.
Qed.

(** What the scan logs. *)
Lemma scanContracts_log (visit : list ptr) :
  ∀ (s s' : State) (del del' : list ContractID),
    scanContracts visit s del = Ok (s', del') →
    CurrentPath s' = CurrentPath s
    ∧ (∃ l, MissedStorageProofs (currentBlockNode s')
              = MissedStorageProofs (currentBlockNode s) ++ l)
    ∧ (∃ l, ContractTerminations (currentBlockNode s')
              = ContractTerminations (currentBlockNode s) ++ l
            ∧ ∀ q, q ∈ l → q ∈ visit)
    ∧ (∃ l, del' = del ++ l
            ∧ ∀ id, id ∈ l →
                ∃ q oc, q ∈ visit ∧ objects s !! q = Some oc ∧ oc_ContractID oc = id).
Proof.
  induction visit as [|p visit IH]; intros s s' del del' Hscan; simpl in Hscan.
  - injection Hscan as <- <-. split; [done|].
    split; [exists []; by rewrite app_nil_r|].
    split; exists []; rewrite app_nil_r; (split; [done|]);
      intros x Hx; by apply elem_of_nil in Hx.
  - destruct (maintainContract s p del) as [[s1 del1]|] eqn:Hm; [|discriminate].
    simpl in Hscan.
    destruct (maintainContract_log _ _ _ _ _ Hm)
      as (Hpath & [lm Hmsp] & (lt & Hct & Hlt) & (ld & Hdel & Hld)).
    destruct (maintainContract_effect _ _ _ _ _ Hm)
      as (oc & oc1 & Ho & Hobj & Hsame & _).
    destruct (IH _ _ _ _ Hscan)
      as (Hpath' & [lm' Hmsp'] & (lt' & Hct' & Hlt') & (ld' & Hdel' & Hld')).
    split; [congruence|]. split; [|split].
    + exists (lm ++ lm'). by rewrite Hmsp', Hmsp, app_assoc.
    + exists (lt ++ lt'). rewrite Hct', Hct, app_assoc. split; [done|].
      intros q Hq. apply elem_of_app in Hq as [Hq|Hq].
      * rewrite (Hlt q Hq). by left.
      * right. by apply Hlt'.
    + exists (ld ++ ld'). rewrite Hdel', Hdel, app_assoc. split; [done|].
      intros id Hid. apply elem_of_app in Hid as [Hid|Hid].
      * destruct (Hld id Hid) as (oc0 & Ho0 & Hid0).
        exists p, oc0. split; [by left|done].
      * destruct (Hld' id Hid) as (q & ocq & Hq & Hoq & Hidq).
        rewrite Hobj in Hoq.
        destruct (decide (p = q)) as [<-|Hne].
        -- rewrite lookup_insert_eq in Hoq. injection Hoq as <-.
           exists p, oc. split; [by left|]. split; [done|].
           destruct Hsame as [_ E]. congruence.
        -- rewrite lookup_insert_ne in Hoq by done.
           exists q, ocq. split; [by right|done].
Qed.

(** A pass that returns is a scan followed by the deletions; the visit of
    a contract splits the scan in three. *)
Lemma contractMaintenanceIn_split (visit : list ptr) (s s' : State) (p : ptr) :
  contractMaintenanceIn visit s = Ok s' →
  NoDup visit →
  p ∈ visit →
  ∃ l1 l2 sa dela sb delb sF delF,
    visit = l1 ++ p :: l2
    ∧ (p ∉ l1) ∧ (p ∉ l2)
    ∧ scanContracts l1 s [] = Ok (sa, dela)
    ∧ maintainContract sa p dela = Ok (sb, delb)
    ∧ scanContracts l2 sb delb = Ok (sF, delF)
    ∧ s' = deleteContracts delF sF.
Proof.
  intros Hrun Hnodup Hin. unfold contractMaintenanceIn in Hrun.
  destruct (scanContracts visit s []) as [[sF delF]|] eqn:Hscan; [|discriminate].
  injection Hrun as <-. simpl in *.
  apply list_elem_of_split in Hin as (l1 & l2 & ->).
  apply NoDup_app in Hnodup as (_ & Hl1 & Hl2).
  apply NoDup_cons in Hl2 as [Hp2 _].
  rewrite scanContracts_app in Hscan.
  destruct (scanContracts l1 s []) as [[sa dela]|] eqn:Hscan1; [|discriminate].
  simpl in Hscan.
  destruct (maintainContract sa p dela) as [[sb delb]|] eqn:Hm; [|discriminate].
  simpl in Hscan.
  exists l1, l2, sa, dela, sb, delb, sF, delF.
  repeat split; try done. intros Hp1. apply (Hl1 p Hp1). by left.
Qed.

(** The deletions leave the entries of the other contract IDs. *)
Lemma deleteContracts_lookup_ne (l : list ContractID) (id : ContractID) :
  ∀ m : gmap ContractID ptr,
    id ∉ l → foldl (λ m contractID, delete contractID m) m l !! id = m !! id.
Proof.
  induction l as [|k l IH]; intros m Hin; [done|].
  apply not_elem_of_cons in Hin as [Hne Hin]. simpl.
  rewrite (IH _ Hin). by apply lookup_delete_ne.
Qed.

(** The deletions add no entry and move none. *)
Lemma deleteContracts_lookup_Some (l : list ContractID) (id : ContractID) (q : ptr) :
  ∀ m : gmap ContractID ptr,
    foldl (λ m contractID, delete contractID m) m l !! id = Some q → m !! id = Some q.
Proof.
  induction l as [|k l IH]; intros m Hq; [done|]. simpl in Hq.
  apply IH in Hq. destruct (decide (k = id)) as [->|Hne].
  - by rewrite lookup_delete_eq in Hq.
  - by rewrite lookup_delete_ne in Hq.
Qed.

(** An iteration on a contract that is at no boundary and meets no
    condition of termination changes nothing. *)
Lemma maintainContract_quiet (s : State) (p : ptr) (oc : OpenContract)
    (del : list ContractID) :
  objects s !! p = Some oc →
  ChallengeFrequency (oc_FileContract oc) ≠ 0 →
  Z.rem (wrap BlockHeight (Height s - Start (oc_FileContract oc)))
        (ChallengeFrequency (oc_FileContract oc)) ≠ 0
  ∨ Height s ≤ Start (oc_FileContract oc) →
  terminates s oc = false →
  maintainContract s p del = Ok (s, del).
Proof.
  intros Ho Hcf Hnb Ht. unfold maintainContract.
  rewrite (windowCheck_no_boundary _ _ _ Ho Hcf Hnb). simpl.
  by rewrite (terminationCheck_eq _ _ _ _ Ho), Ht.
Qed.

(** Between the boundaries a pass is idle: when no visited contract is at a
    window boundary or meets a condition of termination, maintenance
    returns and every part of the state is as before. *)
Theorem quiet_pass (visit : list ptr) (s : State) :
  (∀ p, p ∈ visit →
     ∃ oc, objects s !! p = Some oc
       ∧ ChallengeFrequency (oc_FileContract oc) ≠ 0
       ∧ (Z.rem (wrap BlockHeight (Height s - Start (oc_FileContract oc)))
                (ChallengeFrequency (oc_FileContract oc)) ≠ 0
          ∨ Height s ≤ Start (oc_FileContract oc))
       ∧ terminates s oc = false) →
  ∃ s', contractMaintenanceIn visit s = Ok s'
    ∧ objects s' = objects s
    ∧ OpenContracts s' = OpenContracts s
    ∧ UnspentOutputs s' = UnspentOutputs s
    ∧ currentBlockNode s' = currentBlockNode s
    ∧ Height s' = Height s
    ∧ CurrentPath s' = CurrentPath s.
Proof.
  intros Hquiet.
  assert (Hscan : ∀ del, scanContracts visit s del = Ok (s, del)).
  { induction visit as [|p visit IH]; intros del; [done|]. simpl.
    destruct (Hquiet p ltac:(left)) as (oc & Ho & Hcf & Hnb & Ht).
    rewrite (maintainContract_quiet _ _ _ _ Ho Hcf Hnb Ht). simpl.
    apply IH. intros q Hq. apply Hquiet. by right. }
  exists (deleteContracts [] s). unfold contractMaintenanceIn.
  rewrite Hscan. done.
Qed.

(** A contract with a challenge frequency of zero stops every scan that
    visits it: the boundary test divides by the frequency. *)
Lemma scanContracts_zero_frequency (visit : list ptr) :
  ∀ (s : State) (del : list ContractID) (p : ptr) (oc : OpenContract),
    p ∈ visit → objects s !! p = Some oc →
    ChallengeFrequency (oc_FileContract oc) = 0 →
    ∃ e, scanContracts visit s del = Panic e.
Proof.
  induction visit as [|q visit IH]; intros s del p oc Hin Ho Hcf;
    [by apply elem_of_nil in Hin|].
  simpl. destruct (maintainContract s q del) as [[s1 del1]|e] eqn:Hm; [|eauto].
  simpl. destruct (decide (q = p)) as [->|Hne].
  - unfold maintainContract in Hm.
    rewrite (windowCheck_zero_frequency _ _ _ Ho Hcf) in Hm. discriminate.
  - apply elem_of_cons in Hin as [->|Hin]; [done|].
    destruct (maintainContract_effect _ _ _ _ _ Hm) as (ocq & oc1 & _ & Hobj & _).
    apply (IH s1 del1 p oc Hin); [|done].
    rewrite Hobj. by rewrite lookup_insert_ne.
Qed.

(** The validity check does not look at [ChallengeFrequency], and a contract
    with a frequency of zero, once added, makes every pass of maintenance
    panic, in whatever order the contracts are visited. *)
Theorem zero_frequency_stops_maintenance (s : State) (c : FileContract)
    (id : ContractID) (visit : list ptr) :
  ChallengeFrequency c = 0 →
  rangeOrder (addContract s c id) visit →
  ∃ e, contractMaintenanceIn visit (addContract s c id) = Panic e.
Proof.
  intros Hcf Hvisit.
  set (p := fresh (dom (objects s))).
  assert (Hp : objects (addContract s c id) !! p
               = Some (mkOpenContract c id (ContractFund c) 0 true))
    by apply lookup_insert_eq.
  assert (Hin : p ∈ visit).
  { unfold rangeOrder in Hvisit. rewrite Hvisit.
    apply list_elem_of_fmap. exists (id, p). split; [done|].
    apply elem_of_map_to_list. apply lookup_insert_eq. }
  destruct (scanContracts_zero_frequency visit _ [] p _ Hin Hp Hcf) as [e He].
  exists e. unfold contractMaintenanceIn. by rewrite He.
Qed.

End Pass.

(** ** A contract in the pass *)

Section PassContract.
Context `{Externals}.

(** Whether an iteration terminates its contract is read off the record it
    leaves. *)
Lemma maintainContract_terminated (s s' : State) (p : ptr)
    (del del' : list ContractID) (oc' : OpenContract) :
  maintainContract s p del = Ok (s', del') →
  objects s' !! p = Some oc' →
  if terminates s' oc' then
    ContractTerminations (currentBlockNode s')
      = ContractTerminations (currentBlockNode s) ++ [p]
    ∧ del' = del ++ [oc_ContractID oc']
  else
    ContractTerminations (currentBlockNode s')
      = ContractTerminations (currentBlockNode s)
    ∧ del' = del.
Proof.
  intros Hm Ho'.
  apply maintainContract_inv in Hm as (s1 & Hw & Hc).
  apply windowCheck_frame in Hw as (Hh & _ & Hct).
  destruct (objects s1 !! p) as [oc1|] eqn:Hq;
    [|unfold terminationCheck, deref in Hc; rewrite Hq in Hc; discriminate].
  rewrite (terminationCheck_eq _ _ _ _ Hq) in Hc.
  destruct (terminates s1 oc1) eqn:Ht; injection Hc as <- <-; simpl in *.
  - rewrite Hq in Ho'. injection Ho' as <-.
    unfold terminates in *. simpl. rewrite Ht. by rewrite Hct.
  - rewrite Hq in Ho'. injection Ho' as <-. rewrite Ht. by rewrite Hct.
Qed.

(** The visit of a contract inside a pass that returns: the iteration on
    it starts from its record and the height of the beginning, its record
    is not written afterwards, and what it logs is in the final state. *)
Lemma contractMaintenanceIn_visit (visit : list ptr) (s s' : State) (p : ptr) :
  contractMaintenanceIn visit s = Ok s' →
  NoDup visit →
  p ∈ visit →
  ∃ sa dela sb delb,
    maintainContract sa p dela = Ok (sb, delb)
    ∧ Height sa = Height s
    ∧ Height s' = Height sb
    ∧ objects sa !! p = objects s !! p
    ∧ objects s' !! p = objects sb !! p
    ∧ (∀ mp, mp ∈ MissedStorageProofs (currentBlockNode sb) →
         mp ∈ MissedStorageProofs (currentBlockNode s'))
    ∧ (∀ q, q ∈ ContractTerminations (currentBlockNode sb) →
         q ∈ ContractTerminations (currentBlockNode s'))
    ∧ (∀ id, id ∈ delb → OpenContracts s' !! id = None)
    ∧ (∀ oid,
         (∀ q oc, q ∈ visit → q ≠ p → objects s !! q = Some oc →
                  ¬ writesOutput (Height s) oc oid) →
         UnspentOutputs sa !! oid = UnspentOutputs s !! oid
         ∧ UnspentOutputs s' !! oid = UnspentOutputs sb !! oid).
Proof.
  intros Hrun Hnodup Hin.
  destruct (contractMaintenanceIn_split _ _ _ _ Hrun Hnodup Hin)
    as (l1 & l2 & sa & dela & sb & delb & sF & delF
        & -> & Hp1 & Hp2 & Hscan1 & Hm & Hscan2 & ->).
  destruct (scanContracts_effect _ _ _ _ _ Hscan1)
    as (Hha & _ & Hobja & Hbacka & Houta & _ & _).
  destruct (maintainContract_effect _ _ _ _ _ Hm)
    as (oca & ocb & Hoa & Hobjb & _ & Hhb & _ & _ & _ & _).
  destruct (scanContracts_effect _ _ _ _ _ Hscan2)
    as (HhF & _ & HobjF & _ & HoutF & HctF & HdelF).
  destruct (scanContracts_log _ _ _ _ _ Hscan2) as (_ & [lm Hmsp] & _ & _).
  exists sa, dela, sb, delb. simpl.
  split; [done|]. split; [done|]. split; [done|].
  split; [by apply Hobja|]. split; [by apply HobjF|].
  split; [|split; [done|split]].
  - intros mp Hmp. rewrite Hmsp. apply elem_of_app. by left.
  - intros id Hid. by apply deleteContracts_lookup, HdelF.
  - intros oid Hother. split.
    + apply Houta. intros q oc Hq Hoq. apply (Hother q oc); [|by intros ->|done].
      apply elem_of_app. by left.
    + apply HoutF. intros q ocq Hq Hoq Hwr.
      assert (Hne : q ≠ p) by (by intros ->).
      rewrite Hobjb, lookup_insert_ne in Hoq by done.
      destruct (Hbacka q ocq Hoq) as (oc0 & Ho0 & [E1 E2]).
      apply (Hother q oc0); [|done|done|].
      * apply elem_of_app. right. by right.
      * rewrite <- Hha, <- Hhb. apply (writesOutput_same _ ocq oc0); [by split|done].
Qed.

(** A missed proof, in a pass over any number of contracts: a contract at
    a window boundary with its window not satisfied gets a missed-proof
    output of [min FundsRemaining MissedProofPayout] paid to
    [MissedProofAddress] under its missed-proof output ID, an audit record
    of that ID, the payout taken off its funds and one failure more; its
    window flag stays cleared.  The other contracts write under other
    output IDs, and so does the termination of this one. *)
Theorem missed_proof_output (visit : list ptr) (s s' : State) (p : ptr)
    (oc : OpenContract) (oid : OutputID) :
  contractMaintenanceIn visit s = Ok s' →
  NoDup visit →
  p ∈ visit →
  objects s !! p = Some oc →
  Z.rem (wrap BlockHeight (Height s - Start (oc_FileContract oc)))
        (ChallengeFrequency (oc_FileContract oc)) = 0 →
  Start (oc_FileContract oc) < Height s →
  WindowSatisfied oc = false →
  StorageProofOutputID (oc_FileContract oc) (oc_ContractID oc) (Height s) false
    = (oid, None) →
  (∀ q oc', q ∈ visit → q ≠ p → objects s !! q = Some oc' →
            ¬ writesOutput (Height s) oc' oid) →
  (∀ b, ContractTerminationOutputID (oc_FileContract oc) (oc_ContractID oc) b ≠ oid) →
  let payout := Z.min (FundsRemaining oc) (MissedProofPayout (oc_FileContract oc)) in
  UnspentOutputs s' !! oid
    = Some (mkOutput payout (MissedProofAddress (oc_FileContract oc)))
  ∧ mkMissedStorageProof oid (oc_ContractID oc)
      ∈ MissedStorageProofs (currentBlockNode s')
  ∧ objects s' !! p
      = Some (mkOpenContract (oc_FileContract oc) (oc_ContractID oc)
                (wrap Currency (FundsRemaining oc - payout))
                (wrap Counter (Failures oc + 1)) false).
Proof.
  intros Hrun Hnodup Hin Ho Hrem Hgt Hws Hid Hother HneT payout.
  destruct (contractMaintenanceIn_visit _ _ _ _ Hrun Hnodup Hin)
    as (sa & dela & sb & delb & Hm & Hha & Hhb & Hobja & Hobjb & Hmsp & _ & _ & Hout).
  destruct (Hout oid Hother) as (_ & Houtb).
  rewrite Ho in Hobja. rewrite <- Hha in Hrem, Hgt, Hid.
  apply maintainContract_inv in Hm as (sw & Hw & Hc).
  destruct (decide (ChallengeFrequency (oc_FileContract oc) = 0)) as [Hcf|Hcf];
    [rewrite (windowCheck_zero_frequency _ _ _ Hobja Hcf) in Hw; discriminate|].
  rewrite (windowCheck_missed _ _ _ _ Hobja Hcf Hrem Hgt Hws Hid) in Hw.
  injection Hw as <-. rewrite payoutOf_min in Hc. fold payout in Hc.
  rewrite terminationCheck_eq
    with (oc := mkOpenContract (oc_FileContract oc) (oc_ContractID oc)
                  (wrap Currency (FundsRemaining oc - payout))
                  (wrap Counter (Failures oc + 1)) false) in Hc
    by (simpl; apply lookup_insert_eq).
  rewrite Houtb, Hobjb.
  match type of Hc with
  | Ok (if ?t then _ else _) = _ => destruct t
  end; injection Hc as <- <-; simpl in *.
  - split; [|split].
    + destruct (_ =? 0); [apply lookup_insert_eq|].
      rewrite lookup_insert_ne by apply HneT. apply lookup_insert_eq.
    + apply Hmsp. apply elem_of_app. right. by left.
    + apply lookup_insert_eq.
  - split; [apply lookup_insert_eq|]. split; [|apply lookup_insert_eq].
    apply Hmsp. apply elem_of_app. right. by left.
Qed.

(** A satisfied window, in a pass over any number of contracts: a contract
    at a window boundary with its window satisfied pays nothing; its funds
    and its failures are as before and its window flag is cleared for the
    next window, terminated or not. *)
Theorem satisfied_window_reset (visit : list ptr) (s s' : State) (p : ptr)
    (oc : OpenContract) :
  contractMaintenanceIn visit s = Ok s' →
  NoDup visit →
  p ∈ visit →
  objects s !! p = Some oc →
  Z.rem (wrap BlockHeight (Height s - Start (oc_FileContract oc)))
        (ChallengeFrequency (oc_FileContract oc)) = 0 →
  Start (oc_FileContract oc) < Height s →
  WindowSatisfied oc = true →
  objects s' !! p
    = Some (mkOpenContract (oc_FileContract oc) (oc_ContractID oc)
              (FundsRemaining oc) (Failures oc) false).
Proof.
  intros Hrun Hnodup Hin Ho Hrem Hgt Hws.
  destruct (contractMaintenanceIn_visit _ _ _ _ Hrun Hnodup Hin)
    as (sa & dela & sb & delb & Hm & Hha & Hhb & Hobja & Hobjb & _).
  rewrite Ho in Hobja. rewrite <- Hha in Hrem, Hgt.
  apply maintainContract_inv in Hm as (sw & Hw & Hc).
  destruct (decide (ChallengeFrequency (oc_FileContract oc) = 0)) as [Hcf|Hcf];
    [rewrite (windowCheck_zero_frequency _ _ _ Hobja Hcf) in Hw; discriminate|].
  rewrite (windowCheck_satisfied _ _ _ Hobja Hcf Hrem Hgt Hws) in Hw.
  injection Hw as <-.
  rewrite terminationCheck_eq with (oc := setWindowSatisfied false oc) in Hc
    by (simpl; apply lookup_insert_eq).
  rewrite Hobjb.
  match type of Hc with
  | Ok (if ?t then _ else _) = _ => destruct t
  end; injection Hc as <- <-; simpl; apply lookup_insert_eq.
Qed.

(** Termination, with or without funds: a visited contract whose record,
    after the window check, has no funds left, or whose [End] is the
    current height, or whose failures have reached its tolerance, is
    recorded as terminated and its contract ID is not in the open-contract
    map after the pass; each of the three conditions is enough. *)
Theorem contract_terminated (visit : list ptr) (s s' : State) (p : ptr)
    (oc' : OpenContract) :
  contractMaintenanceIn visit s = Ok s' →
  NoDup visit →
  p ∈ visit →
  objects s' !! p = Some oc' →
  FundsRemaining oc' = 0
  ∨ End_ (oc_FileContract oc') = Height s
  ∨ Tolerance (oc_FileContract oc') = Failures oc' →
  p ∈ ContractTerminations (currentBlockNode s')
  ∧ OpenContracts s' !! oc_ContractID oc' = None.
Proof.
  intros Hrun Hnodup Hin Ho' Hcond.
  destruct (contractMaintenanceIn_visit _ _ _ _ Hrun Hnodup Hin)
    as (sa & dela & sb & delb & Hm & Hha & Hhb & _ & Hobjb & _ & Hct & Hdel & _).
  rewrite Hobjb in Ho'.
  pose proof (maintainContract_terminated _ _ _ _ _ _ Hm Ho') as Hterm.
  destruct (maintainContract_effect _ _ _ _ _ Hm) as (_ & _ & _ & _ & _ & Hh & _).
  assert (Ht : terminates sb oc' = true).
  { unfold terminates. rewrite Hh, Hha.
    destruct Hcond as [E|[E|E]]; rewrite E.
    - by rewrite Z.eqb_refl.
    - rewrite Z.eqb_refl. by rewrite orb_true_r.
    - rewrite Z.eqb_refl. by rewrite orb_true_r. }
  rewrite Ht in Hterm. destruct Hterm as [Hctb Hdelb].
  split.
  - apply Hct. rewrite Hctb. apply elem_of_app. right. by left.
  - apply Hdel. rewrite Hdelb. apply elem_of_app. right. by left.
Qed.

End PassContract.

(** ** What a pass keeps *)

Section PassInvariants.
Context `{Externals}.

(** A contract that meets no condition of termination stays open: after
    the pass its contract ID still leads to its record and the pass has
    not recorded it as terminated.  The deletions go by the [ContractID]
    field of the terminated records, so no other visited record may carry
    this contract ID. *)
Theorem contract_survives (visit : list ptr) (s s' : State) (p : ptr)
    (id : ContractID) (oc' : OpenContract) :
  contractMaintenanceIn visit s = Ok s' →
  NoDup visit →
  p ∈ visit →
  OpenContracts s !! id = Some p →
  objects s' !! p = Some oc' →
  terminates s' oc' = false →
  (∀ q oc, q ∈ visit → q ≠ p → objects s !! q = Some oc → oc_ContractID oc ≠ id) →
  OpenContracts s' !! id = Some p
  ∧ ∃ l, ContractTerminations (currentBlockNode s')
           = ContractTerminations (currentBlockNode s) ++ l
         ∧ p ∉ l.
Proof.
  intros Hrun Hnodup Hin Hopen Ho' Ht Hother.
  destruct (contractMaintenanceIn_split _ _ _ _ Hrun Hnodup Hin)
    as (l1 & l2 & sa & dela & sb & delb & sF & delF
        & -> & Hp1 & Hp2 & Hscan1 & Hm & Hscan2 & ->).
  simpl in *.
  destruct (scanContracts_effect _ _ _ _ _ Hscan1)
    as (Hha & Hopena & _ & Hbacka & _).
  destruct (scanContracts_log _ _ _ _ _ Hscan1)
    as (_ & _ & (lta & Hcta & Hlta) & (la & Hdela & Hla)).
  destruct (maintainContract_effect _ _ _ _ _ Hm)
    as (oca & ocb & Hoa & Hobjb & _ & Hhb & Hopenb & _).
  destruct (scanContracts_effect _ _ _ _ _ Hscan2)
    as (HhF & HopenF & HobjF & _).
  destruct (scanContracts_log _ _ _ _ _ Hscan2)
    as (_ & _ & (ltc & Hctc & Hltc) & (lc & Hdelc & Hlc)).
  rewrite (HobjF p Hp2) in Ho'.
  pose proof (maintainContract_terminated _ _ _ _ _ _ Hm Ho') as Hterm.
  assert (Htb : terminates sb oc' = false).
  { unfold terminates in *. simpl in Ht. by rewrite <- HhF. }
  rewrite Htb in Hterm. destruct Hterm as [Hctb Hdelb].
  split.
  - rewrite deleteContracts_lookup_ne; [congruence|].
    rewrite Hdelc, Hdelb, Hdela. simpl.
    intros Hid. apply elem_of_app in Hid as [Hid|Hid].
    + destruct (Hla id Hid) as (q & oc & Hq & Hoq & Hfield).
      apply (Hother q oc); [|by intros ->|done|done].
      apply elem_of_app. by left.
    + destruct (Hlc id Hid) as (q & ocq & Hq & Hoq & Hfield).
      assert (Hne : q ≠ p) by (by intros ->).
      rewrite Hobjb, lookup_insert_ne in Hoq by done.
      destruct (Hbacka q ocq Hoq) as (oc0 & Ho0 & [_ E]).
      apply (Hother q oc0); [|done|done|congruence].
      apply elem_of_app. right. by right.
  - exists (lta ++ ltc). rewrite Hctc, Hctb, Hcta, app_assoc. split; [done|].
    intros Hl. apply elem_of_app in Hl as [Hl|Hl].
    + by apply Hp1, Hlta.
    + by apply Hp2, Hltc.
Qed.

(** What no pass does: it changes neither the height nor the chain; it
    opens no contract and moves no entry of the open-contract map; it
    leaves alone the records it does not visit, and in those it visits it
    keeps the [FileContract] and the [ContractID]; it only appends to the
    two audit lists of the block, and what it records as terminated is
    among what it visits. *)
Theorem maintenance_invariants (visit : list ptr) (s s' : State) :
  contractMaintenanceIn visit s = Ok s' →
  Height s' = Height s
  ∧ CurrentPath s' = CurrentPath s
  ∧ (∀ id q, OpenContracts s' !! id = Some q → OpenContracts s !! id = Some q)
  ∧ (∀ q, q ∉ visit → objects s' !! q = objects s !! q)
  ∧ (∀ q oc', objects s' !! q = Some oc' →
       ∃ oc, objects s !! q = Some oc ∧ sameContract oc oc')
  ∧ (∃ l, MissedStorageProofs (currentBlockNode s')
            = MissedStorageProofs (currentBlockNode s) ++ l)
  ∧ (∃ l, ContractTerminations (currentBlockNode s')
            = ContractTerminations (currentBlockNode s) ++ l
          ∧ ∀ q, q ∈ l → q ∈ visit).
Proof.
  intros Hrun. unfold contractMaintenanceIn in Hrun.
  destruct (scanContracts visit s []) as [[sF delF]|] eqn:Hscan; [|discriminate].
  injection Hrun as <-. simpl.
  destruct (scanContracts_effect _ _ _ _ _ Hscan)
    as (Hh & Hopen & Hobj & Hback & _).
  destruct (scanContracts_log _ _ _ _ _ Hscan) as (Hpath & Hmsp & Hct & _).
  repeat split; try done.
  intros id q Hq. apply deleteContracts_lookup_Some in Hq. congruence.
Qed.

End PassInvariants.

(** ** Inversion, further *)

Section InversionFurther.
Context `{Externals}.

(** What the first loop of the inversion does. *)
Lemma forEach_reopenContract_effect (l : list ptr) :
  ∀ s s1 : State,
    forEach reopenContract l s = Ok s1 →
    objects s1 = objects s
    ∧ Height s1 = Height s
    ∧ CurrentPath s1 = CurrentPath s
    ∧ (∀ id, is_Some (OpenContracts s !! id) → is_Some (OpenContracts s1 !! id))
    ∧ (∀ p oc, p ∈ l → objects s !! p = Some oc →
         is_Some (OpenContracts s1 !! oc_ContractID oc)
         ∧ UnspentOutputs s1 !!
             ContractTerminationOutputID (oc_FileContract oc) (oc_ContractID oc)
               (Failures oc =? Tolerance (oc_FileContract oc)) = None)
    ∧ (∀ oid o, UnspentOutputs s1 !! oid = Some o → UnspentOutputs s !! oid = Some o).
Proof.
  induction l as [|p l IH]; intros s s1 Hrun; simpl in Hrun.
  - injection Hrun as <-.
    split; [done|]. split; [done|]. split; [done|]. split; [done|].
    split; [|done]. intros p oc Hp. by apply elem_of_nil in Hp.
  - destruct (reopenContract s p) as [s0|] eqn:Hr; [|discriminate]. simpl in Hrun.
    apply reopenContract_inv in Hr as (oc & Ho & Hr).
    rewrite (reopenContract_Ok _ _ _ Ho) in Hr. injection Hr as <-.
    destruct (IH _ _ Hrun) as (Hobj & Hh & Hpath & Hkeep & Hnew & Hsub).
    simpl in *.
    split; [done|]. split; [done|]. split; [done|]. split; [|split].
    + intros id Hid. apply Hkeep.
      destruct (decide (oc_ContractID oc = id)) as [<-|Hne].
      * rewrite lookup_insert_eq. eauto.
      * by rewrite lookup_insert_ne.
    + intros p' oc' Hp' Ho'. apply elem_of_cons in Hp' as [->|Hp'].
      * rewrite Ho in Ho'. injection Ho' as <-. split.
        -- apply Hkeep. rewrite lookup_insert_eq. eauto.
        -- destruct (UnspentOutputs s1 !! _) as [o|] eqn:Hlook; [|done].
           apply Hsub in Hlook. by rewrite lookup_delete_eq in Hlook.
      * by apply (Hnew p').
    + intros oid o Hlook. apply Hsub in Hlook.
      apply lookup_delete_Some in Hlook as [_ Hlook]. done.
Qed.

(** What the second loop of the inversion does. *)
Lemma forEach_reverseMissedProof_effect (l : list MissedStorageProof) :
  ∀ s s2 : State,
    forEach reverseMissedProof l s = Ok s2 →
    OpenContracts s2 = OpenContracts s
    ∧ Height s2 = Height s
    ∧ CurrentPath s2 = CurrentPath s
    ∧ (∀ q oc2, objects s2 !! q = Some oc2 →
         ∃ oc, objects s !! q = Some oc ∧ sameContract oc oc2
               ∧ WindowSatisfied oc2 = WindowSatisfied oc)
    ∧ (∀ mp, mp ∈ l → UnspentOutputs s2 !! msp_OutputID mp = None)
    ∧ (∀ oid o, UnspentOutputs s2 !! oid = Some o → UnspentOutputs s !! oid = Some o).
Proof.
  induction l as [|mp l IH]; intros s s2 Hrun; simpl in Hrun.
  - injection Hrun as <-.
    split; [done|]. split; [done|]. split; [done|]. split; [|split; [|done]].
    + intros q oc2 Hq. exists oc2. split; [done|]. split; [apply sameContract_refl|done].
    + intros mp Hmp. by apply elem_of_nil in Hmp.
  - destruct (reverseMissedProof s mp) as [s0|] eqn:Hr; [|discriminate].
    simpl in Hrun.
    destruct (reverseMissedProof_inv _ _ _ Hr) as (q & oc & Hq & Ho).
    rewrite (reverseMissedProof_Ok _ _ _ _ Hq Ho) in Hr. injection Hr as <-.
    destruct (IH _ _ Hrun) as (Hopen & Hh & Hpath & Hback & Hgone & Hsub).
    simpl in *.
    split; [done|]. split; [done|]. split; [done|]. split; [|split].
    + intros q' oc2 Hq'. destruct (Hback q' oc2 Hq') as (oc1 & Ho1 & Hsame & Hws).
      destruct (decide (q = q')) as [<-|Hne].
      * rewrite lookup_insert_eq in Ho1. injection Ho1 as <-.
        exists oc. split; [done|]. destruct Hsame as [E1 E2]. simpl in *.
        split; [by split|done].
      * rewrite lookup_insert_ne in Ho1 by done. eauto.
    + intros mp' Hmp'. apply elem_of_cons in Hmp' as [->|Hmp']; [|by apply Hgone].
      destruct (UnspentOutputs s2 !! msp_OutputID mp) as [o|] eqn:Hlook; [|done].
      apply Hsub in Hlook. by rewrite lookup_delete_eq in Hlook.
    + intros oid o Hlook. apply Hsub in Hlook.
      apply lookup_delete_Some in Hlook as [_ Hlook]. done.
Qed.

(** What the inversion never does: it changes neither the height nor the
    chain, it closes no contract, it creates no output, and in the records
    it writes neither the [FileContract], nor the [ContractID], nor
    [WindowSatisfied]: the window flag of every record is after the
    inversion what it was before. *)
Theorem inversion_invariants (s s' : State) :
  inverseContractMaintenance s = Ok s' →
  Height s' = Height s
  ∧ CurrentPath s' = CurrentPath s
  ∧ (∀ id, is_Some (OpenContracts s !! id) → is_Some (OpenContracts s' !! id))
  ∧ (∀ oid o, UnspentOutputs s' !! oid = Some o → UnspentOutputs s !! oid = Some o)
  ∧ (∀ q oc', objects s' !! q = Some oc' →
       ∃ oc, objects s !! q = Some oc ∧ sameContract oc oc'
             ∧ WindowSatisfied oc' = WindowSatisfied oc).
Proof.
  unfold inverseContractMaintenance.
  destruct (forEach reopenContract _ s) as [s1|] eqn:H1; [|discriminate].
  simpl. intros H2.
  destruct (forEach_reopenContract_effect _ _ _ H1)
    as (Hobj & Hh & Hpath & Hkeep & _ & Hsub).
  destruct (forEach_reverseMissedProof_effect _ _ _ H2)
    as (Hopen' & Hh' & Hpath' & Hback' & _ & Hsub').
  split; [congruence|]. split; [congruence|]. split; [|split].
  - intros id Hid. rewrite Hopen'. by apply Hkeep.
  - intros oid o Hlook. by apply Hsub, Hsub'.
  - intros q oc' Hq. rewrite <- Hobj. by apply Hback'.
Qed.

(** What the inversion undoes of the records of the block: every contract
    of the termination list is open again, and the output IDs of the
    records, of a missed proof or of a termination, are in the
    unspent-output set no more. *)
Theorem inversion_reopens_and_removes (s s' : State) :
  inverseContractMaintenance s = Ok s' →
  (∀ p oc, p ∈ ContractTerminations (currentBlockNode s) →
     objects s !! p = Some oc →
     is_Some (OpenContracts s' !! oc_ContractID oc)
     ∧ UnspentOutputs s' !!
         ContractTerminationOutputID (oc_FileContract oc) (oc_ContractID oc)
           (Failures oc =? Tolerance (oc_FileContract oc)) = None)
  ∧ (∀ mp, mp ∈ MissedStorageProofs (currentBlockNode s) →
       UnspentOutputs s' !! msp_OutputID mp = None).
Proof.
  intros Hinv. pose proof Hinv as Hrun. unfold inverseContractMaintenance in Hrun.
  destruct (forEach reopenContract _ s) as [s1|] eqn:H1; [|discriminate].
  simpl in Hrun.
  assert (Hnode : currentBlockNode s1 = currentBlockNode s).
  { eapply (forEach_invariant reopenContract
              (λ t, currentBlockNode t = currentBlockNode s)); [|exact H1|done].
    intros t p t' Ht Hn. apply reopenContract_inv in Ht as (oc & Ho & Ht).
    rewrite (reopenContract_Ok _ _ _ Ho) in Ht. by injection Ht as <-. }
  destruct (forEach_reopenContract_effect _ _ _ H1) as (_ & _ & _ & _ & Hnew & _).
  destruct (forEach_reverseMissedProof_effect _ _ _ Hrun)
    as (Hopen' & _ & _ & _ & Hgone & Hsub').
  split.
  - intros p oc Hp Ho. destruct (Hnew p oc Hp Ho) as [Hre Hnone].
    split; [by rewrite Hopen'|].
    destruct (UnspentOutputs s' !! _) as [o|] eqn:Hlook; [|done].
    apply Hsub' in Hlook. congruence.
  - intros mp Hmp. apply Hgone. by rewrite Hnode.
Qed.

(** A missed-proof record whose contract is not open stops the inversion:
    the lookup of the contract gives a nil pointer, which is written
    through. *)
Theorem inversion_missing_contract (s : State) (mp : MissedStorageProof)
    (l : list MissedStorageProof) :
  currentBlockNode s = mkBlockNode (mp :: l) [] →
  OpenContracts s !! msp_ContractID mp = None →
  inverseContractMaintenance s = Panic NilDereference.
Proof.
  intros Hnode Hopen. unfold inverseContractMaintenance. rewrite Hnode. simpl.
  rewrite Hnode. simpl. unfold reverseMissedProof. rewrite Hopen. reflexivity.
Qed.

(** A missed-proof record whose output is not in the unspent-output set
    does not stop the inversion: the absent output counts for a value of
    zero, so the funds of the contract stay as they are while one failure
    is taken off. *)
Theorem inversion_missing_output (s : State) (mp : MissedStorageProof) (q : ptr)
    (oc : OpenContract) :
  currentBlockNode s = mkBlockNode [mp] [] →
  OpenContracts s !! msp_ContractID mp = Some q →
  objects s !! q = Some oc →
  UnspentOutputs s !! msp_OutputID mp = None →
  inRange Currency (FundsRemaining oc) →
  ∃ s', inverseContractMaintenance s = Ok s'
    ∧ objects s' !! q
        = Some (mkOpenContract (oc_FileContract oc) (oc_ContractID oc)
                  (FundsRemaining oc) (wrap Counter (Failures oc - 1))
                  (WindowSatisfied oc))
    ∧ UnspentOutputs s' = UnspentOutputs s
    ∧ OpenContracts s' = OpenContracts s.
Proof.
  intros Hnode Hopen Ho Hout Hr.
  unfold inverseContractMaintenance. rewrite Hnode. simpl. rewrite Hnode. simpl.
  rewrite (reverseMissedProof_Ok _ _ _ _ Hopen Ho). simpl.
  eexists. split; [reflexivity|]. simpl.
  unfold outputValue. rewrite Hout. simpl.
  rewrite Z.add_0_r, (wrap_inRange _ _ Hr).
  split; [apply lookup_insert_eq|]. split; [by apply delete_id|done].
Qed.

End InversionFurther.

(** ** Funds in the pass *)

Section PassFunds.
Context `{Externals}.

(** An iteration pays out of the funds of its contract no more than they
    hold. *)
Lemma maintainContract_funds (s s' : State) (p : ptr) (del del' : list ContractID)
    (oc : OpenContract) :
  maintainContract s p del = Ok (s', del') →
  objects s !! p = Some oc →
  0 ≤ FundsRemaining oc ≤ maxInt Currency →
  0 ≤ MissedProofPayout (oc_FileContract oc) →
  ∃ oc1, objects s' = <[p := oc1]> (objects s)
    ∧ sameContract oc oc1
    ∧ 0 ≤ FundsRemaining oc1 ≤ FundsRemaining oc.
Proof.
  intros Hm Ho Hf Hmp.
  apply maintainContract_inv in Hm as (sw & Hw & Hc).
  assert (Hobj : ∀ oc1, objects sw !! p = Some oc1 → objects s' = objects sw).
  { intros oc1 Ho1. rewrite (terminationCheck_eq _ _ _ _ Ho1) in Hc.
    by destruct (terminates sw oc1); injection Hc as <- <-. }
  destruct (windowCheck_cases _ _ _ _ Ho Hw)
    as [-> | [(_ & ->) | (_ & oid & _ & Hw')]].
  - exists oc. rewrite (Hobj oc Ho), insert_id by done.
    split; [done|]. split; [apply sameContract_refl|lia].
  - exists (setWindowSatisfied false oc).
    rewrite (Hobj (setWindowSatisfied false oc)) by (simpl; apply lookup_insert_eq).
    split; [done|]. split; [by split|simpl; lia].
  - rewrite Hw' in Hw. injection Hw as <-.
    eexists. rewrite (Hobj _ (lookup_insert_eq _ _ _)). simpl.
    split; [reflexivity|]. split; [by split|]. simpl.
    rewrite payoutOf_min, wrap_inRange;
      [|unfold inRange; pose proof (minInt_nonpos Currency)]; lia.
Qed.

(** The payouts of maintenance cannot be greater than the funds remaining:
    when the funds of every record are a non-negative amount of the
    currency type and the missed-proof payouts are not negative, a pass
    leaves in every record funds between zero and what the record had, and
    changes neither its [FileContract] nor its [ContractID]. *)
Theorem funds_never_increase (visit : list ptr) (s s' : State) :
  contractMaintenanceIn visit s = Ok s' →
  (∀ q oc, objects s !! q = Some oc →
     0 ≤ FundsRemaining oc ≤ maxInt Currency
     ∧ 0 ≤ MissedProofPayout (oc_FileContract oc)) →
  ∀ q oc', objects s' !! q = Some oc' →
    ∃ oc, objects s !! q = Some oc
      ∧ sameContract oc oc'
      ∧ 0 ≤ FundsRemaining oc' ≤ FundsRemaining oc.
Proof.
  intros Hrun. unfold contractMaintenanceIn in Hrun.
  destruct (scanContracts visit s []) as [[sF delF]|] eqn:Hscan; [|discriminate].
  injection Hrun as <-. simpl.
  generalize dependent (@nil ContractID). revert s.
  induction visit as [|p visit IH]; intros s del Hscan Hinv q oc' Hq;
    simpl in Hscan.
  - injection Hscan as <- <-. exists oc'. split; [done|].
    split; [apply sameContract_refl|]. destruct (Hinv q oc' Hq). lia.
  - destruct (maintainContract s p del) as [[s1 del1]|] eqn:Hm; [|discriminate].
    simpl in Hscan.
    destruct (maintainContract_effect _ _ _ _ _ Hm) as (oc & _ & Ho & _).
    destruct (Hinv p oc Ho) as [Hf Hmp].
    destruct (maintainContract_funds _ _ _ _ _ _ Hm Ho Hf Hmp)
      as (oc1 & Hobj & Hsame & Hf1).
    assert (Hinv1 : ∀ q oc, objects s1 !! q = Some oc →
              0 ≤ FundsRemaining oc ≤ maxInt Currency
              ∧ 0 ≤ MissedProofPayout (oc_FileContract oc)).
    { intros q' ocq Hq'. rewrite Hobj in Hq'.
      destruct (decide (p = q')) as [<-|Hne].
      - rewrite lookup_insert_eq in Hq'. injection Hq' as <-.
        destruct Hsame as [E _]. rewrite E. lia.
      - rewrite lookup_insert_ne in Hq' by done. by apply (Hinv q'). }
    destruct (IH s1 del1 Hscan Hinv1 q oc' Hq) as (oc0 & Ho0 & Hsame0 & Hf0).
    rewrite Hobj in Ho0.
    destruct (decide (p = q)) as [<-|Hne].
    + rewrite lookup_insert_eq in Ho0. injection Ho0 as <-.
      exists oc. split; [done|].
      split; [by apply sameContract_trans with oc1|lia].
    + rewrite lookup_insert_ne in Ho0 by done. eauto.
Qed.

End PassFunds.

(** ** The results on the concrete instance *)

Import Sample.

(** A state at height 10 and the contract of the scenario, whose [Start] is
    10: the validity check lets it through. *)
Lemma validContract_accepts_start_at_height_witness :
  Start contract = Height (stateWith 10 contract false)
  ∧ validContract (stateWith 10 contract false) contract = None.
Proof.
  split; [reflexivity|].
  apply validContract_accepts_start_at_height;
    [vm_compute; discriminate|reflexivity|reflexivity].
Defined.

(** C2 fails as stated: [id1] is open, and [addContract] with [id1] puts
    another record in the place of the one that was there. *)
Lemma addContract_present_counterexample :
  is_Some (openContractOf (stateWith 5 contract false) id1)
  ∧ openContractOf (addContract (stateWith 5 contract false) tolerantContract id1) id1
    ≠ openContractOf (stateWith 5 contract false) id1.
Proof.
  split; [eexists; reflexivity|].
  intros E. vm_compute in E. discriminate E.
Qed.

(** C2 on the same input: the record under [id1] is the new one. *)
Lemma addContract_present_replaces_witness :
  openContractOf (stateWith 5 contract false) id1
    = Some (mkOpenContract contract id1 100 0 false)
  ∧ openContractOf (addContract (stateWith 5 contract false) tolerantContract id1) id1
    = Some (mkOpenContract tolerantContract id1 100 0 true).
Proof.
  split; [reflexivity|].
  exact (proj1 (addContract_present_replaces (stateWith 5 contract false)
                  tolerantContract id1 _ eq_refl)).
Defined.

(** C4 fails as stated: at height 5 the contract, which starts at 10, has no
    window, and the index derivation returns 0 as a result, the very index
    it derives for a one-byte file inside a window. *)
Lemma currentProofIndex_no_window_counterexample :
  (WindowIndex contract (Height (stateWith 5 contract false))).2 ≠ None
  ∧ currentProofIndex (stateWith 5 contract false) proof1 = Ok 0
  ∧ (WindowIndex oneByteContract (Height (stateWith 12 oneByteContract false))).2 = None
  ∧ currentProofIndex (stateWith 12 oneByteContract false) proof1 = Ok 0.
Proof.
  split; [vm_compute; discriminate|].
  split; [vm_compute; reflexivity|].
  split; vm_compute; reflexivity.
Qed.

(** C4 at height 5, before the contract starts. *)
Lemma currentProofIndex_no_window_witness :
  currentProofIndex (stateWith 5 contract false) proof1 = Ok 0.
Proof.
  apply (currentProofIndex_no_window (stateWith 5 contract false) proof1
           (mkOpenContract contract id1 100 0 false) 0
           "height below contract start point");
    reflexivity.
Defined.

(** C5 fails as stated: the output ID of the proof is taken by an output
    of value 7; the proof application completes and an output of value 10
    is found under that ID afterwards. *)
Lemma applyStorageProof_existing_output_counterexample :
  UnspentOutputs stateTaken !! proofOutputID = Some (mkOutput 7 missedAddress)
  ∧ ∃ s', applyStorageProof stateTaken proof1 = Ok s'
      ∧ UnspentOutputs s' !! proofOutputID = Some (mkOutput 10 validAddress).
Proof.
  split; [vm_compute; reflexivity|].
  eexists. split; vm_compute; reflexivity.
Qed.

(** C5 on the same input. *)
Lemma applyStorageProof_existing_output_witness :
  ∃ s', applyStorageProof stateTaken proof1 = Ok s'
    ∧ UnspentOutputs s' !! proofOutputID = Some (mkOutput 10 validAddress).
Proof.
  exact (applyStorageProof_existing_output stateTaken proof1
           (mkOpenContract contract id1 100 0 false) proofOutputID None
           (mkOutput 7 missedAddress) eq_refl eq_refl eq_refl).
Defined.

(** C6 at height 12: a payout of 10 out of 100. *)
Lemma applyStorageProof_payout_witness :
  ∃ s' oc',
    applyStorageProof (stateWith 12 contract false) proof1 = Ok s'
    ∧ UnspentOutputs s' !! proofOutputID = Some (mkOutput 10 validAddress)
    ∧ openContractOf s' id1 = Some oc'
    ∧ WindowSatisfied oc' = true
    ∧ FundsRemaining oc' = 90.
Proof.
  destruct (applyStorageProof_payout (stateWith 12 contract false) proof1
              (mkOpenContract contract id1 100 0 false) proofOutputID)
    as (s' & oc' & Happly & Hout & Hoc & Hws & _ & Hfunds & _).
  - reflexivity.
  - vm_compute. reflexivity.
  - exists s', oc'. split; [exact Happly|]. split; [exact Hout|].
    split; [exact Hoc|]. split; [exact Hws|].
    apply Hfunds; vm_compute; [split|]; discriminate.
Defined.

(** C10 at height 12, for an empty file and for a file of 4096 bytes. *)
Lemma currentProofIndex_FileSize_witness :
  currentProofIndex (stateWith 12 emptyFileContract false) proof1 = Panic DivideByZero
  ∧ currentProofIndex (stateWith 12 contract false) proof1 = Ok 273.
Proof.
  split.
  - destruct (currentProofIndex_FileSize (stateWith 12 emptyFileContract false)
                proof1 (mkOpenContract emptyFileContract id1 100 0 false) 0)
      as (Hzero & _); [reflexivity|reflexivity|].
    apply Hzero. reflexivity.
  - destruct (currentProofIndex_FileSize (stateWith 12 contract false)
                proof1 (mkOpenContract contract id1 100 0 false) 0)
      as (_ & _ & _ & Hpos); [reflexivity|reflexivity|].
    destruct Hpos as [Hrun _]; [vm_compute; split; [reflexivity|discriminate]|].
    exact Hrun.
Defined.

(** The one order of visit of a sample state. *)
Lemma rangeOrder_stateWith (h : Z) (fc : FileContract) (satisfied : bool) :
  rangeOrder (stateWith h fc satisfied) [1%positive].
Proof. unfold rangeOrder. simpl. by rewrite map_to_list_singleton. Defined.

(** C7 with the sample functions and integer types. *)
Lemma maintenance_scenario_witness :
  ∃ s', contractMaintenanceIn [1%positive] (stateWith 15 contract false) = Ok s'
    ∧ UnspentOutputs s' !! missedOutputID = Some (mkOutput 20 missedAddress)
    ∧ UnspentOutputs s' !! terminationOutputID = Some (mkOutput 80 missedAddress)
    ∧ objects s' !! 1%positive = Some (mkOpenContract contract id1 80 1 false)
    ∧ OpenContracts s' = ∅.
Proof.
  destruct (maintenance_scenario (stateWith 15 contract false) id1 1%positive
              (replicate 32 "042"%byte) 4096 validAddress missedAddress
              missedOutputID [1%positive])
    as (s' & Hrun & _ & HoutT & HoutM & Hobj & Hopen & _).
  - reflexivity.
  - reflexivity.
  - reflexivity.
  - reflexivity.
  - vm_compute. split; discriminate.
  - vm_compute. split; discriminate.
  - vm_compute. split; discriminate.
  - apply rangeOrder_stateWith.
  - exists s'. split; [exact Hrun|]. split; [|split; [exact HoutT|]].
    + apply HoutM. vm_compute. discriminate.
    + split; [exact Hobj|exact Hopen].
Defined.

(** C8 on the scenario: the contract fails out with 80 left. *)
Lemma termination_output_witness :
  contractMaintenanceIn [1%positive] (stateWith 15 contract false) = Ok terminatedState
  ∧ UnspentOutputs terminatedState !! terminationOutputID
      = Some (mkOutput 80 missedAddress)
  ∧ 1%positive ∈ ContractTerminations (currentBlockNode terminatedState)
  ∧ OpenContracts terminatedState !! id1 = None.
Proof.
  assert (Hrun : contractMaintenanceIn [1%positive] (stateWith 15 contract false)
                 = Ok terminatedState) by (vm_compute; reflexivity).
  split; [exact Hrun|].
  apply (termination_output [1%positive] _ _ 1%positive
           (mkOpenContract contract id1 80 1 false) Hrun).
  - apply NoDup_singleton.
  - apply list_elem_of_singleton. reflexivity.
  - reflexivity.
  - reflexivity.
  - vm_compute. discriminate.
  - intros q oc Hq Hne. apply list_elem_of_singleton in Hq. contradiction.
Defined.

(** C9 fails as stated: after the inversion of the block of the scenario
    both lists of audit records still hold their record. *)
Lemma inverseContractMaintenance_counterexample :
  ∃ s', inverseContractMaintenance terminatedState = Ok s'
    ∧ MissedStorageProofs (currentBlockNode s')
        = [mkMissedStorageProof missedOutputID id1]
    ∧ ContractTerminations (currentBlockNode s') = [1%positive].
Proof. eexists. split; [vm_compute; reflexivity|]. split; reflexivity. Qed.

(** The audit records of the scenario resolve. *)
Lemma auditResolves_terminatedState : auditResolves terminatedState.
Proof.
  split; [|split].
  - intros p Hp. apply list_elem_of_singleton in Hp as ->. eexists. reflexivity.
  - intros id q Hq. simpl in Hq. rewrite lookup_empty in Hq. discriminate Hq.
  - intros mp Hmp. apply list_elem_of_singleton in Hmp as ->. right.
    exists 1%positive, (mkOpenContract contract id1 80 1 false).
    split; [apply list_elem_of_singleton; reflexivity|].
    split; reflexivity.
Defined.

(** C9 on the block of the scenario. *)
Lemma inverseContractMaintenance_keeps_records_witness :
  ∃ s', inverseContractMaintenance terminatedState = Ok s'
    ∧ MissedStorageProofs (currentBlockNode s')
        = [mkMissedStorageProof missedOutputID id1]
    ∧ ContractTerminations (currentBlockNode s') = [1%positive].
Proof.
  exact (inverseContractMaintenance_keeps_records terminatedState
           auditResolves_terminatedState).
Defined.

(** The contract of the scenario at the boundary of height 15 with its
    window satisfied: after maintenance and inversion the flag is cleared. *)
Lemma maintenance_inverse_window_witness :
  ∃ s1 s2,
    contractMaintenanceIn [1%positive] (stateWith 15 contract true) = Ok s1
    ∧ inverseContractMaintenance s1 = Ok s2
    ∧ openContractOf (stateWith 15 contract true) id1
        = Some (mkOpenContract contract id1 100 0 true)
    ∧ openContractOf s2 id1 = Some (mkOpenContract contract id1 100 0 false).
Proof.
  destruct (maintenance_inverse_window (stateWith 15 contract true) id1 1%positive
              (mkOpenContract contract id1 100 0 true) [1%positive])
    as (s1 & s2 & Hrun & Hinv & Hbefore & Hafter & _).
  - reflexivity.
  - reflexivity.
  - reflexivity.
  - reflexivity.
  - vm_compute. discriminate.
  - vm_compute. reflexivity.
  - vm_compute. reflexivity.
  - reflexivity.
  - apply rangeOrder_stateWith.
  - exists s1, s2. split; [exact Hrun|]. split; [exact Hinv|].
    split; [exact Hbefore|exact Hafter].
Defined.


(** ** Further runs of the model *)

(** The block of the scenario, inverted: the contract is open again with the
    funds and the failure count it had, and both outputs are gone.  This
    path of maintenance is inverted in full. *)
Example scenario_round_trip :
  ∃ s2, inverseContractMaintenance terminatedState = Ok s2
    ∧ openContractOf s2 id1 = openContractOf (stateWith 15 contract false) id1
    ∧ OpenContracts s2 = OpenContracts (stateWith 15 contract false)
    ∧ UnspentOutputs s2 = UnspentOutputs (stateWith 15 contract false).
Proof.
  eexists. split; [vm_compute; reflexivity|].
  split; [|split]; vm_compute; reflexivity.
Qed.

(** A contract that reaches [End] with failures to spare is terminated to
    the valid-proof address, with the funds it has left. *)
Example termination_at_end :
  ∃ s', contractMaintenance (stateWith 20 tolerantContract true) = Ok s'
    ∧ UnspentOutputs s' !! contractTerminationOutputID tolerantContract id1 false
        = Some (mkOutput 100 validAddress)
    ∧ OpenContracts s' = ∅.
Proof.
  eexists. split; [vm_compute; reflexivity|].
  split; vm_compute; reflexivity.
Qed.

(** A contract without funds is terminated with no output at all. *)
Example termination_without_funds :
  let s := setObject 1%positive (mkOpenContract contract id1 0 0 true)
                     (stateWith 12 contract true) in
  ∃ s', contractMaintenance s = Ok s'
    ∧ UnspentOutputs s' = ∅
    ∧ OpenContracts s' = ∅
    ∧ ContractTerminations (currentBlockNode s') = [1%positive].
Proof.
  eexists. split; [vm_compute; reflexivity|].
  split; [|split]; vm_compute; reflexivity.
Qed.

(** A contract whose [ChallengeFrequency] is zero stops the pass: the
    boundary test divides by it. *)
Example maintenance_zero_frequency :
  let fc := mkFileContract 100 [] 4096 10 20 0 1 10 validAddress 20 missedAddress in
  contractMaintenance (stateWith 15 fc true) = Panic DivideByZero.
Proof. vm_compute. reflexivity. Qed.

(** ** The further results on the concrete instance *)

(** The round trip on the scenario: its two output IDs are new and differ,
    so its block is inverted in full. *)
Lemma single_contract_round_trip_witness :
  ∃ s2 oc2,
    inverseContractMaintenance terminatedState = Ok s2
    ∧ OpenContracts s2 = {[ id1 := 1%positive ]}
    ∧ UnspentOutputs s2 = ∅
    ∧ objects s2 !! 1%positive = Some oc2
    ∧ FundsRemaining oc2 = 100
    ∧ Failures oc2 = 0.
Proof.
  destruct (single_contract_round_trip (stateWith 15 contract false) terminatedState
              id1 1%positive (mkOpenContract contract id1 100 0 false) [1%positive])
    as (s2 & oc2 & Hinv & Hopen & Hout & Hobj & _ & _ & Hfunds & Hfail & _).
  - reflexivity.
  - reflexivity.
  - reflexivity.
  - reflexivity.
  - vm_compute. split; discriminate.
  - vm_compute. split; discriminate.
  - intros oid _. apply lookup_empty.
  - intros b. destruct b; vm_compute; discriminate.
  - apply rangeOrder_stateWith.
  - vm_compute. reflexivity.
  - exists s2, oc2. split; [exact Hinv|]. split; [exact Hopen|].
    split; [exact Hout|]. split; [exact Hobj|]. split; [exact Hfunds|exact Hfail].
Defined.

(** At height 12 the sample proof is accepted: the contract is open, its
    window is not satisfied and the sample verifier accepts. *)
Lemma validProof_accepts_iff_witness :
  validProof (stateWith 12 contract false) proof1 = Ok None.
Proof.
  apply validProof_accepts_iff.
  exists (mkOpenContract contract id1 100 0 false), 64, 273.
  repeat split; vm_compute; reflexivity.
Defined.

Lemma validProof_empty_file_witness :
  validProof (stateWith 12 emptyFileContract false) proof1 = Panic DivideByZero.
Proof.
  apply (validProof_empty_file (stateWith 12 emptyFileContract false) proof1
           (mkOpenContract emptyFileContract id1 100 0 false) 0 0);
    reflexivity.
Defined.

(** At height 5, before the contract starts, the sample proof is accepted:
    it is checked against segment 0. *)
Lemma validProof_no_window_witness :
  validProof (stateWith 5 contract false) proof1 = Ok None.
Proof.
  exact (validProof_no_window (stateWith 5 contract false) proof1
           (mkOpenContract contract id1 100 0 false) 64 0
           "height below contract start point" eq_refl eq_refl eq_refl eq_refl).
Defined.

Lemma unknown_contract_witness :
  validProof (stateWith 12 contract false) proof2
    = Ok (Some "unrecognized contract id in storage proof"%string)
  ∧ currentProofIndex (stateWith 12 contract false) proof2 = Panic NilDereference
  ∧ applyStorageProof (stateWith 12 contract false) proof2 = Panic NilDereference.
Proof.
  apply (unknown_contract (stateWith 12 contract false) proof2).
  vm_compute. reflexivity.
Defined.

Lemma applyStorageProof_runs :
  applyStorageProof (stateWith 12 contract false) proof1
    = Ok (applied (stateWith 12 contract false) proof1).
Proof. vm_compute. reflexivity. Defined.

Lemma applyStorageProof_frame_witness :
  Height (applied (stateWith 12 contract false) proof1) = 12
  ∧ OpenContracts (applied (stateWith 12 contract false) proof1)
      = {[ id1 := 1%positive ]}
  ∧ currentBlockNode (applied (stateWith 12 contract false) proof1) = emptyNode
  ∧ UnspentOutputs (applied (stateWith 12 contract false) proof1) !! missedOutputID
      = None.
Proof.
  destruct (applyStorageProof_frame _ _ _ applyStorageProof_runs)
    as (q & oc & oid & Hq & Ho & Hid & Hh & Hopen & _ & Hnode & _ & Hout).
  split; [exact Hh|]. split; [exact Hopen|]. split; [exact Hnode|].
  vm_compute in Hq. injection Hq as <-.
  vm_compute in Ho. injection Ho as <-.
  vm_compute in Hid. injection Hid as <-.
  rewrite Hout; [reflexivity|]. vm_compute. discriminate.
Defined.

Lemma validProof_after_apply_witness :
  validProof (applied (stateWith 12 contract false) proof1) proof1
    = Ok (Some "storage proof has already been completed for this contract"%string).
Proof.
  apply (validProof_after_apply (stateWith 12 contract false) _ proof1 proof1
           applyStorageProof_runs).
  reflexivity.
Defined.

(** Two applications at height 12: the funds go from 100 to 80 and the one
    output is of value 10. *)
Lemma applyStorageProof_twice_witness :
  ∃ s1 s2 oc2,
    applyStorageProof (stateWith 12 contract false) proof1 = Ok s1
    ∧ applyStorageProof s1 proof1 = Ok s2
    ∧ UnspentOutputs s2 !! proofOutputID = Some (mkOutput 10 validAddress)
    ∧ objects s2 !! 1%positive = Some oc2
    ∧ FundsRemaining oc2 = 80.
Proof.
  destruct (applyStorageProof_twice (stateWith 12 contract false) proof1 1%positive
              (mkOpenContract contract id1 100 0 false) proofOutputID)
    as (s1 & s2 & oc2 & H1 & H2 & Hout & _ & Hobj & Hfunds).
  - reflexivity.
  - reflexivity.
  - vm_compute. reflexivity.
  - vm_compute. split; discriminate.
  - vm_compute. discriminate.
  - exists s1, s2, oc2. split; [exact H1|]. split; [exact H2|].
    split; [exact Hout|]. split; [exact Hobj|exact Hfunds].
Defined.

(** The contract with a challenge frequency of zero passes the validity
    check at height 12, as the contract with the same fund, start and end
    does. *)
Lemma validContract_criterion_witness :
  validContract (stateWith 12 contract false) zeroFrequencyContract = None
  ∧ validContract (stateWith 12 contract false) zeroFrequencyContract
      = validContract (stateWith 12 contract false)
          (mkFileContract 50 [] 0 14 30 5 1 0 [] 0 []).
Proof.
  destruct (validContract_criterion (stateWith 12 contract false)
              (mkFileContract 50 [] 0 14 30 5 1 0 [] 0 [])) as [Hiff Hsame].
  split.
  - rewrite (Hsame zeroFrequencyContract); [|reflexivity|reflexivity|reflexivity].
    apply Hiff. vm_compute. repeat split; discriminate.
  - apply Hsame; reflexivity.
Defined.

Lemma addContract_extends_witness :
  ∃ p,
    OpenContracts (addContract (stateWith 12 contract false) contract2 id2) !! id2
      = Some p
    ∧ OpenContracts (addContract (stateWith 12 contract false) contract2 id2) !! id1
      = Some 1%positive
    ∧ 1%positive ≠ p
    ∧ objects (addContract (stateWith 12 contract false) contract2 id2) !! 1%positive
      = Some (mkOpenContract contract id1 100 0 false).
Proof.
  destruct (addContract_extends (stateWith 12 contract false) contract2 id2)
    as (p & Hopen & _ & _ & Hkeep & Hother & _).
  exists p. split; [rewrite Hopen; apply lookup_insert_eq|].
  destruct (Hother id1 1%positive) as [H1 H2].
  - vm_compute. discriminate.
  - reflexivity.
  - eexists. reflexivity.
  - split; [exact H1|]. split; [exact H2|]. apply Hkeep. reflexivity.
Defined.

(** The two sample contracts at height 15, the second visited first. *)
Lemma pass_two_runs (satisfied : bool) :
  contractMaintenanceIn [2%positive; 1%positive] (twoContracts 15 satisfied)
    = Ok (passed [2%positive; 1%positive] (twoContracts 15 satisfied)).
Proof. destruct satisfied; vm_compute; reflexivity. Defined.

Lemma NoDup_two : NoDup [2%positive; 1%positive].
Proof.
  apply NoDup_cons. split; [|apply NoDup_singleton].
  intros Hin. apply list_elem_of_singleton in Hin. discriminate Hin.
Defined.

Lemma elem_of_two_1 : 1%positive ∈ [2%positive; 1%positive].
Proof. apply elem_of_cons. right. apply list_elem_of_singleton. reflexivity. Defined.

Lemma elem_of_two_2 : 2%positive ∈ [2%positive; 1%positive].
Proof. apply elem_of_cons. left. reflexivity. Defined.

Lemma missed_proof_output_witness :
  UnspentOutputs (passed [2%positive; 1%positive] (twoContracts 15 false))
      !! missedOutputID
    = Some (mkOutput 20 missedAddress)
  ∧ mkMissedStorageProof missedOutputID id1
      ∈ MissedStorageProofs
          (currentBlockNode (passed [2%positive; 1%positive] (twoContracts 15 false)))
  ∧ objects (passed [2%positive; 1%positive] (twoContracts 15 false)) !! 1%positive
    = Some (mkOpenContract contract id1 80 1 false).
Proof.
  apply (missed_proof_output [2%positive; 1%positive] (twoContracts 15 false) _
           1%positive (mkOpenContract contract id1 100 0 false) missedOutputID
           (pass_two_runs false) NoDup_two elem_of_two_1).
  - reflexivity.
  - vm_compute. reflexivity.
  - vm_compute. reflexivity.
  - reflexivity.
  - vm_compute. reflexivity.
  - intros q oc' Hq Hne Ho Hwr.
    apply elem_of_cons in Hq as [->|Hq];
      [|apply list_elem_of_singleton in Hq; contradiction].
    vm_compute in Ho. injection Ho as <-.
    destruct Hwr as [E|[b E]]; [|destruct b]; vm_compute in E; discriminate E.
  - intros b. destruct b; vm_compute; discriminate.
Defined.

Lemma satisfied_window_reset_witness :
  objects (passed [2%positive; 1%positive] (twoContracts 15 true)) !! 1%positive
    = Some (mkOpenContract contract id1 100 0 false).
Proof.
  apply (satisfied_window_reset [2%positive; 1%positive] (twoContracts 15 true) _
           1%positive (mkOpenContract contract id1 100 0 true)
           (pass_two_runs true) NoDup_two elem_of_two_1).
  - reflexivity.
  - vm_compute. reflexivity.
  - vm_compute. reflexivity.
  - reflexivity.
Defined.

(** The first contract, at its tolerance after the missed proof, is
    terminated and closed. *)
Lemma contract_terminated_witness :
  1%positive ∈ ContractTerminations
      (currentBlockNode (passed [2%positive; 1%positive] (twoContracts 15 false)))
  ∧ OpenContracts (passed [2%positive; 1%positive] (twoContracts 15 false)) !! id1
    = None.
Proof.
  apply (contract_terminated [2%positive; 1%positive] (twoContracts 15 false) _
           1%positive (mkOpenContract contract id1 80 1 false)
           (pass_two_runs false) NoDup_two elem_of_two_1).
  - vm_compute. reflexivity.
  - right. right. reflexivity.
Defined.

(** The second contract, which is at no boundary, stays open. *)
Lemma contract_survives_witness :
  OpenContracts (passed [2%positive; 1%positive] (twoContracts 15 false)) !! id2
    = Some 2%positive.
Proof.
  apply (contract_survives [2%positive; 1%positive] (twoContracts 15 false) _
           2%positive id2 (mkOpenContract contract2 id2 50 0 true)
           (pass_two_runs false) NoDup_two elem_of_two_2).
  - reflexivity.
  - vm_compute. reflexivity.
  - vm_compute. reflexivity.
  - intros q oc Hq Hne Ho.
    apply elem_of_cons in Hq as [->|Hq]; [contradiction|].
    apply list_elem_of_singleton in Hq as ->.
    vm_compute in Ho. injection Ho as <-. vm_compute. discriminate.
Defined.

Lemma maintenance_invariants_witness :
  Height (passed [2%positive; 1%positive] (twoContracts 15 false)) = 15
  ∧ ∃ oc, objects (twoContracts 15 false) !! 1%positive = Some oc
          ∧ sameContract oc (mkOpenContract contract id1 80 1 false).
Proof.
  destruct (maintenance_invariants _ _ _ (pass_two_runs false))
    as (Hh & _ & _ & _ & Hback & _).
  split; [exact Hh|]. apply Hback. vm_compute. reflexivity.
Defined.

(** At height 12 neither sample contract is at a boundary. *)
Lemma quiet_pass_witness :
  ∃ s', contractMaintenanceIn [2%positive; 1%positive] (twoContracts 12 false) = Ok s'
    ∧ objects s' = objects (twoContracts 12 false)
    ∧ UnspentOutputs s' = ∅
    ∧ currentBlockNode s' = emptyNode.
Proof.
  destruct (quiet_pass [2%positive; 1%positive] (twoContracts 12 false))
    as (s' & Hrun & Hobj & _ & Hout & Hnode & _).
  - intros p Hp. apply elem_of_cons in Hp as [->|Hp].
    + exists (mkOpenContract contract2 id2 50 0 true).
      split; [reflexivity|]. split; [vm_compute; discriminate|].
      split; [left; vm_compute; discriminate|reflexivity].
    + apply list_elem_of_singleton in Hp as ->.
      exists (mkOpenContract contract id1 100 0 false).
      split; [reflexivity|]. split; [vm_compute; discriminate|].
      split; [left; vm_compute; discriminate|reflexivity].
  - exists s'. split; [exact Hrun|]. split; [exact Hobj|].
    split; [exact Hout|exact Hnode].
Defined.

(** The contract with a challenge frequency of zero is accepted by the
    validity check at height 12; once added, maintenance panics. *)
Lemma zero_frequency_stops_maintenance_witness :
  validContract (stateWith 12 contract false) zeroFrequencyContract = None
  ∧ ∃ e, contractMaintenance
           (addContract (stateWith 12 contract false) zeroFrequencyContract id2)
         = Panic e.
Proof.
  split; [reflexivity|].
  apply (zero_frequency_stops_maintenance (stateWith 12 contract false)
           zeroFrequencyContract id2).
  - reflexivity.
  - unfold rangeOrder. reflexivity.
Defined.

(** The block of the two sample contracts, inverted. *)
Lemma inversion_two_runs :
  inverseContractMaintenance (passed [2%positive; 1%positive] (twoContracts 15 false))
    = Ok (inverted (passed [2%positive; 1%positive] (twoContracts 15 false))).
Proof. vm_compute. reflexivity. Defined.

Lemma inversion_invariants_witness :
  Height (inverted (passed [2%positive; 1%positive] (twoContracts 15 false))) = 15
  ∧ is_Some (OpenContracts
               (inverted (passed [2%positive; 1%positive] (twoContracts 15 false)))
             !! id2)
  ∧ ∃ oc, objects (passed [2%positive; 1%positive] (twoContracts 15 false))
            !! 1%positive = Some oc
          ∧ WindowSatisfied (mkOpenContract contract id1 100 0 false)
            = WindowSatisfied oc.
Proof.
  destruct (inversion_invariants _ _ inversion_two_runs)
    as (Hh & _ & Hkeep & _ & Hback).
  split; [exact Hh|]. split.
  - apply Hkeep. eexists. vm_compute. reflexivity.
  - destruct (Hback 1%positive (mkOpenContract contract id1 100 0 false))
      as (oc & Ho & _ & Hws); [vm_compute; reflexivity|].
    exists oc. split; [exact Ho|exact Hws].
Defined.

Lemma inversion_reopens_and_removes_witness :
  is_Some (OpenContracts
             (inverted (passed [2%positive; 1%positive] (twoContracts 15 false)))
           !! id1)
  ∧ UnspentOutputs
      (inverted (passed [2%positive; 1%positive] (twoContracts 15 false)))
    !! terminationOutputID = None
  ∧ UnspentOutputs
      (inverted (passed [2%positive; 1%positive] (twoContracts 15 false)))
    !! missedOutputID = None.
Proof.
  destruct (inversion_reopens_and_removes _ _ inversion_two_runs) as [Hct Hmsp].
  destruct (Hct 1%positive (mkOpenContract contract id1 80 1 false))
    as [Hopen Hterm].
  - vm_compute. apply list_elem_of_singleton. reflexivity.
  - vm_compute. reflexivity.
  - split; [exact Hopen|]. split; [exact Hterm|].
    apply (Hmsp (mkMissedStorageProof missedOutputID id1)).
    vm_compute. apply list_elem_of_singleton. reflexivity.
Defined.

Lemma inversion_missing_contract_witness :
  inverseContractMaintenance orphanRecordState = Panic NilDereference.
Proof.
  apply (inversion_missing_contract orphanRecordState
           (mkMissedStorageProof missedOutputID id2) []).
  - reflexivity.
  - vm_compute. reflexivity.
Defined.

(** The record of the scenario inverted without its output: the funds stay
    at 80 and the failure is taken off. *)
Lemma inversion_missing_output_witness :
  ∃ s', inverseContractMaintenance missingOutputState = Ok s'
    ∧ objects s' !! 1%positive = Some (mkOpenContract contract id1 80 0 false).
Proof.
  destruct (inversion_missing_output missingOutputState
              (mkMissedStorageProof missedOutputID id1) 1%positive
              (mkOpenContract contract id1 80 1 false))
    as (s' & Hrun & Hobj & _).
  - reflexivity.
  - vm_compute. reflexivity.
  - vm_compute. reflexivity.
  - vm_compute. reflexivity.
  - vm_compute. split; discriminate.
  - exists s'. split; [exact Hrun|exact Hobj].
Defined.

Lemma funds_never_increase_witness :
  ∃ oc, objects (twoContracts 15 false) !! 1%positive = Some oc
    ∧ 0 ≤ 80 ≤ FundsRemaining oc.
Proof.
  destruct (funds_never_increase _ _ _ (pass_two_runs false)) with
    (q := 1%positive) (oc' := mkOpenContract contract id1 80 1 false)
    as (oc & Ho & _ & Hf).
  - intros q oc Ho.
    destruct (decide (q = 1%positive)) as [->|H1];
      [vm_compute in Ho; injection Ho as <-; vm_compute; repeat split; discriminate|].
    destruct (decide (q = 2%positive)) as [->|H2];
      [vm_compute in Ho; injection Ho as <-; vm_compute; repeat split; discriminate|].
    unfold twoContracts in Ho. simpl in Ho.
    rewrite lookup_insert_ne, lookup_singleton_ne in Ho by done.
    discriminate Ho.
  - vm_compute. reflexivity.
  - exists oc. split; [exact Ho|exact Hf].
Defined.
